(** * mcld: the command-line driver of MCLinker (tools/mcld/main.cpp)

    A shallow embedding of the driver: output-name inference
    ([DetermineOutputFilename]), configuration ([ConfigLinker]), the
    position-keyed merge of positional object files and [-l] namespecs
    ([PrepareInputOutput]), the link step ([LinkFiles]) and [main].

    The driver talks to three collaborators that are not part of main.cpp:
    LLVM's support library (paths, error codes, the diagnostic stream), the
    [alone::LinkerConfig] class and the [alone::Linker] engine.  They are
    interfaces here; every call the driver makes to them is recorded, with
    its result, in a chronological trace, so that ordering properties of the
    pipeline are statements about that trace. *)

From Stdlib Require Import String Ascii ZArith NArith List Lia.
From stdpp Require Import base tactics option list sorting strings numbers.

Open Scope string_scope.
Open Scope list_scope.

(** ** Strings *)

(** The argument of a ["\n"] escape. *)
Definition LF : string := String (ascii_of_nat 10) EmptyString.

(** [std::string::empty]. *)
Definition empty (s : string) : bool :=
  match s with
  | EmptyString => true
  | String _ _ => false
  end.

(** Conversion of a [const char*] to [std::string], as in
    [return output_path.c_str();]: the characters before the first NUL. *)
Fixpoint c_str (s : string) : string :=
  match s with
  | EmptyString => EmptyString
  | String c s' => if Ascii.eqb c zero then EmptyString else String c (c_str s')
  end.

(** A string without NUL characters (every string that comes from [argv]). *)
Fixpoint nul_free (s : string) : bool :=
  match s with
  | EmptyString => true
  | String c s' => negb (Ascii.eqb c zero) && nul_free s'
  end.

(** ** The option model *)

(** [llvm::cl::list<std::string>]: the parsed values together with the
    command-line position of each occurrence.  LLVM keeps two vectors
    (the values and [Positions]) and pushes to both on every occurrence;
    one list of pairs is the same data.  Positions are [unsigned]; the
    driver only compares them, so they are naturals in [N]. *)
Abbreviation cl_list := (list (string * N)).

(** The global option objects of main.cpp, as parsed by
    [llvm::cl::ParseCommandLineOptions]. *)
Record Options : Type := {
  OptTargetTriple : string;          (* -mtriple / -C *)
  OptOutputFilename : string;        (* -o *)
  OptSysRoot : string;               (* -sysroot *)
  OptSearchDirList : cl_list;        (* -L *)
  OptSOName : string;                (* -soname *)
  OptShared : bool;                  (* -shared *)
  OptDyld : string;                  (* -dynamic-linker *)
  OptInputObjectFiles : cl_list;     (* positional *)
  OptNameSpecList : cl_list;         (* -l *)
  OptWrapList : cl_list;             (* -wrap *)
}.

(** ** The linker configuration *)

(** Modelled from the spec: [alone::LinkerConfig] (alone/Support/LinkerConfig.h)
    is not among the sources; section 3 of the specification gives its
    content: soName, sysRoot (optional), dynamicLinkerPath (optional),
    wrapSymbols and searchDirs (both in insertion order, duplicates kept). *)
Record LinkerConfig : Type := {
  soName : string;
  sysRoot : option string;
  dynamicLinkerPath : option string;
  wrapSymbols : list string;
  searchDirs : list string;
}.

(** Modelled from the spec: the setters of [alone::LinkerConfig]; each one
    writes its own field and leaves the others alone. *)
Definition setSOName (config : LinkerConfig) (pSOName : string) : LinkerConfig :=
  {| soName := pSOName;
     sysRoot := sysRoot config;
     dynamicLinkerPath := dynamicLinkerPath config;
     wrapSymbols := wrapSymbols config;
     searchDirs := searchDirs config |}.

Definition setSysRoot (config : LinkerConfig) (pSysRoot : string) : LinkerConfig :=
  {| soName := soName config;
     sysRoot := Some pSysRoot;
     dynamicLinkerPath := dynamicLinkerPath config;
     wrapSymbols := wrapSymbols config;
     searchDirs := searchDirs config |}.

Definition setDyld (config : LinkerConfig) (pDyld : string) : LinkerConfig :=
  {| soName := soName config;
     sysRoot := sysRoot config;
     dynamicLinkerPath := Some pDyld;
     wrapSymbols := wrapSymbols config;
     searchDirs := searchDirs config |}.

Definition addWrap (config : LinkerConfig) (pWrapSymbol : string) : LinkerConfig :=
  {| soName := soName config;
     sysRoot := sysRoot config;
     dynamicLinkerPath := dynamicLinkerPath config;
     wrapSymbols := wrapSymbols config ++ [pWrapSymbol];
     searchDirs := searchDirs config |}.

Definition addSearchDir (config : LinkerConfig) (pDir : string) : LinkerConfig :=
  {| soName := soName config;
     sysRoot := sysRoot config;
     dynamicLinkerPath := dynamicLinkerPath config;
     wrapSymbols := wrapSymbols config;
     searchDirs := searchDirs config ++ [pDir] |}.

(** ** External interfaces *)

(** What the driver uses of LLVM's support library: [llvm::error_code]
    with [llvm::errc::success] and [message()], [llvm::sys::fs::make_absolute]
    (status and the rewritten path) and the two [llvm::sys::path] edits. *)
Class LLVMSupport : Type := {
  error_code : Type;
  errc_success : error_code;
  error_code_eq_dec :: EqDecision error_code;
  error_message : error_code -> string;
  make_absolute : string -> error_code * string;
  remove_filename : string -> string;
  path_append : string -> string -> string;
}.

(** What the driver uses of [alone::Linker] (alone/Linker.h): the error
    codes, the default constructor, and the five operations, each a
    transition of the engine's state that yields an error code.
    [LinkerConfig_new] is [new (std::nothrow) LinkerConfig(triple)]:
    [None] is the null pointer. *)
Class LinkerAPI : Type := {
  ErrorCode : Type;
  kSuccess : ErrorCode;
  ErrorCode_eq_dec :: EqDecision ErrorCode;
  GetErrorString : ErrorCode -> string;
  LinkerConfig_new : string -> option LinkerConfig;
  Linker : Type;
  Linker_new : Linker;
  Linker_config : LinkerConfig -> Linker -> ErrorCode * Linker;
  Linker_setOutput : string -> Linker -> ErrorCode * Linker;
  Linker_addObject : string -> Linker -> ErrorCode * Linker;
  Linker_addNameSpec : string -> Linker -> ErrorCode * Linker;
  Linker_link : Linker -> ErrorCode * Linker;
}.

Section Driver.
Context `{LLVMSupport} `{LinkerAPI}.

(** ** Effects *)

(** One entry per observable action of the driver, in program order. *)
Inductive Event : Type :=
| EvErrs (msg : string)                            (* llvm::errs() << ... *)
| EvMakeAbsolute (path : string) (err : error_code)
| EvConfig (config : LinkerConfig) (result : ErrorCode)
| EvSetOutput (path : string) (result : ErrorCode)
| EvAddObject (path : string) (result : ErrorCode)
| EvAddNameSpec (namespec : string) (result : ErrorCode)
| EvLink (result : ErrorCode).

(** The state a run threads through: the engine and the trace so far. *)
Record World : Type := {
  linker : Linker;
  trace : list Event;
}.

(** Ways in which an execution leaves defined behaviour ([OutOfRange]: a
    vector is indexed outside [0, size)), or in which the embedding gives
    up ([OutOfFuel]: the [while (true)] loop was cut). *)
Inductive Fault : Type := OutOfRange | OutOfFuel.

Inductive Outcome (A : Type) : Type :=
| Done (a : A) (w : World)
| Crash (f : Fault) (w : World).
Arguments Done {A} a w.
Arguments Crash {A} f w.

Definition M (A : Type) : Type := World -> Outcome A.

Definition ret {A} (a : A) : M A := fun w => Done a w.

Definition bind {A B} (m : M A) (k : A -> M B) : M B :=
  fun w =>
    match m w with
    | Done a w' => k a w'
    | Crash f w' => Crash f w'
    end.

Definition crash {A} (f : Fault) : M A := fun w => Crash f w.

Definition emit (e : Event) (w : World) : World :=
  {| linker := linker w; trace := trace w ++ [e] |}.

(** [llvm::errs() << msg]. *)
Definition llvm_errs (msg : string) : M unit := fun w => Done tt (emit (EvErrs msg) w).

(** A call of an engine operation [op]: the engine moves on, the call and
    its result are recorded. *)
Definition call (op : Linker -> ErrorCode * Linker) (ev : ErrorCode -> Event)
  : M ErrorCode :=
  fun w =>
    let (result, l) := op (linker w) in
    Done result {| linker := l; trace := trace w ++ [ev result] |}.

Definition fs_make_absolute (path : string) : M (error_code * string) :=
  fun w =>
    let r := make_absolute path in
    Done r (emit (EvMakeAbsolute path (fst r)) w).

(** [v[i]] on a [cl::list]: undefined outside the vector. *)
Definition at_index (v : cl_list) (i : nat) : M string :=
  match v !! i with
  | Some (s, _) => ret s
  | None => crash OutOfRange
  end.

(** [cl::list::getPosition(optnum)]; LLVM asserts [optnum < size()]. *)
Definition getPosition (v : cl_list) (optnum : nat) : M N :=
  match v !! optnum with
  | Some (_, pos) => ret pos
  | None => crash OutOfRange
  end.
End Driver.

Arguments Done {_ _ A} a w.
Arguments Crash {_ _ A} f w.

Notation "'let*' x ':=' m 'in' k" := (bind m (fun x => k))
  (at level 10, x pattern, m at level 100, k at level 200).

(** ** The driver *)

Section Mcld.
Context `{LLVMSupport} `{LinkerAPI}.
Variable opts : Options.

Definition DEFAULT_OUTPUT_PATH : string := "a.out".

Definition EXIT_SUCCESS : Z := 0.
Definition EXIT_FAILURE : Z := 1.

(** main.cpp:132-160. *)
Definition DetermineOutputFilename (pOutputPath : string) : M string :=
  if negb (empty pOutputPath) then ret pOutputPath
  else if (1 <? length (OptInputObjectFiles opts))%nat then
    let* _ := llvm_errs ("Use " ++ DEFAULT_OUTPUT_PATH ++ " for output file!" ++ LF) in
    ret DEFAULT_OUTPUT_PATH
  else
    let* input_path := at_index (OptInputObjectFiles opts) 0 in
    let output_path := input_path in
    let* (err, output_path) := fs_make_absolute output_path in
    if bool_decide (errc_success <> err) then
      let* _ := llvm_errs ("Failed to determine the absolute path of `" ++ input_path
                           ++ "'! (detail: " ++ error_message err ++ ")" ++ LF) in
      ret EmptyString
    else
      let output_path := remove_filename output_path in
      let output_path := path_append output_path "a.out" in
      ret (c_str output_path).

(** main.cpp:162-211 (the host build: [LinkerConfig(OptTargetTriple)]). *)
Definition ConfigLinker (pOutputFilename : string) : M bool :=
  match LinkerConfig_new (OptTargetTriple opts) with
  | None =>
      let* _ := llvm_errs ("Out of memory when create the linker configuration!" ++ LF) in
      ret false
  | Some config =>
      (* 1. set up soname *)
      let config :=
        if negb (empty (OptSOName opts)) then setSOName config (OptSOName opts)
        else setSOName config pOutputFilename in
      (* 2. if given, set up sysroot *)
      let config :=
        if negb (empty (OptSysRoot opts)) then setSysRoot config (OptSysRoot opts)
        else config in
      (* 3. if given, set up dynamic linker path. *)
      let config :=
        if negb (empty (OptDyld opts)) then setDyld config (OptDyld opts)
        else config in
      (* 4. if given, set up wrapped symbols *)
      let config := fold_left addWrap (map fst (OptWrapList opts)) config in
      (* 5. if given, set up search directories *)
      let config := fold_left addSearchDir (map fst (OptSearchDirList opts)) config in
      let* result := call (Linker_config config) (EvConfig config) in
      if bool_decide (kSuccess <> result) then
        let* _ := llvm_errs ("Failed to configure the linker! (detail: "
                             ++ GetErrorString result ++ ")" ++ LF) in
        ret false
      else ret true
  end.

(** How one turn of the [while (true)] loop of [PrepareInputOutput] ends. *)
Inductive LoopExit : Type :=
| Continue (fileIt libIt : nat)   (* next turn, with the advanced iterators *)
| Break                           (* [break]: done with the list *)
| Return (b : bool).              (* [return b] from inside the loop *)

(** main.cpp:239-271, the body of the loop.  An iterator is its offset
    from [begin()]; [fileEnd] and [libEnd] are the sizes. *)
Definition merge_body (fileIt libIt : nat) : M LoopExit :=
  let fileEnd := length (OptInputObjectFiles opts) in
  let libEnd := length (OptNameSpecList opts) in
  let* libPos :=
    if bool_decide (libIt <> libEnd) then getPosition (OptNameSpecList opts) libIt
    else ret 0%N in
  let* filePos :=
    if bool_decide (fileIt <> fileEnd) then getPosition (OptInputObjectFiles opts) fileIt
    else ret 0%N in
  if bool_decide (filePos <> 0%N) && (bool_decide (libPos = 0%N) || (filePos <? libPos)%N) then
    let* path := at_index (OptInputObjectFiles opts) fileIt in
    let* result := call (Linker_addObject path) (EvAddObject path) in
    if bool_decide (kSuccess <> result) then
      let* _ := llvm_errs ("Failed to open the input file! (detail: "
                           ++ path ++ ": " ++ GetErrorString result ++ ")" ++ LF) in
      ret (Return false)
    else ret (Continue (S fileIt) libIt)
  else if bool_decide (libPos <> 0%N) && (bool_decide (filePos = 0%N) || (libPos <? filePos)%N) then
    let* namespec := at_index (OptNameSpecList opts) libIt in
    let* result := call (Linker_addNameSpec namespec) (EvAddNameSpec namespec) in
    if bool_decide (kSuccess <> result) then
      let* _ := llvm_errs ("Failed to open the namespec! (detail: "
                           ++ namespec ++ ": " ++ GetErrorString result ++ ")" ++ LF) in
      ret (Return false)
    else ret (Continue fileIt (S libIt))
  else ret Break.

(** main.cpp:238-274: [while (true) { body }] followed by [return true].
    [fuel] bounds the number of turns. *)
Fixpoint merge_loop (fuel : nat) (fileIt libIt : nat) : M bool :=
  match fuel with
  | O => crash OutOfFuel
  | S fuel' =>
      let* exit := merge_body fileIt libIt in
      match exit with
      | Continue fileIt' libIt' => merge_loop fuel' fileIt' libIt'
      | Break => ret true
      | Return b => ret b
      end
  end.

(** Every turn but the last advances one iterator, so this many turns
    are enough (see [merge_loop_trace]). *)
Definition merge_fuel : nat :=
  S (length (OptInputObjectFiles opts) + length (OptNameSpecList opts)).

(** main.cpp:213-275. *)
Definition PrepareInputOutput (pOutputPath : string) : M bool :=
  (* -----  set output  ----- *)
  let* result := call (Linker_setOutput pOutputPath) (EvSetOutput pOutputPath) in
  if bool_decide (kSuccess <> result) then
    let* _ := llvm_errs ("Failed to open the output file! (detail: "
                         ++ pOutputPath ++ ": " ++ GetErrorString result ++ ")" ++ LF) in
    ret false
  else
    (* -----  set inputs  ----- *)
    merge_loop merge_fuel 0 0.

(** main.cpp:277-286. *)
Definition LinkFiles : M bool :=
  let* result := call Linker_link EvLink in
  if bool_decide (kSuccess <> result) then
    let* _ := llvm_errs ("Failed to linking! (detail: " ++ GetErrorString result ++ LF) in
    ret false
  else ret true.

(** main.cpp:288-312.  [ParseCommandLineOptions] has filled the option
    objects ([opts]) and [init::Initialize()] has run; neither is part of
    main.cpp, and what follows reads nothing else of them. *)
Definition main : M Z :=
  let* OutputFilename := DetermineOutputFilename (OptOutputFilename opts) in
  if empty OutputFilename then ret EXIT_FAILURE
  else
    let* configured := ConfigLinker OutputFilename in
    if negb configured then ret EXIT_FAILURE
    else
      let* prepared := PrepareInputOutput OutputFilename in
      if negb prepared then ret EXIT_FAILURE
      else
        let* linked := LinkFiles in
        if negb linked then ret EXIT_FAILURE
        else ret EXIT_SUCCESS.

(** A run of the program starts with nothing on the trace; the engine is
    the default-constructed [Linker linker;], which nothing touches before
    [ConfigLinker]. *)
Definition initial_world : World := {| linker := Linker_new; trace := [] |}.

Definition run : Outcome Z := main initial_world.
End Mcld.

Section Outcomes.
Context `{LLVMSupport} `{LinkerAPI}.

(** The world an execution ends in, however it ends. *)
Definition final_world {A} (o : Outcome A) : World :=
  match o with
  | Done _ w => w
  | Crash _ w => w
  end.

(** The value an execution returns, if it returns. *)
Definition returned {A} (o : Outcome A) : option A :=
  match o with
  | Done a _ => Some a
  | Crash _ _ => None
  end.
End Outcomes.

(** ** Stand-ins for the collaborators

    Small executable instances of the two interfaces, used to run the driver
    on concrete command lines. *)

Module Posix.
(** The error codes the stand-in produces. *)
Inductive errc : Type := success | no_such_file_or_directory.

#[export] Instance errc_eq_dec : EqDecision errc.
Proof. solve_decision. Defined.

Definition message (e : errc) : string :=
  match e with
  | success => "Success"
  | no_such_file_or_directory => "No such file or directory"
  end.

Definition is_separator (c : ascii) : bool := Ascii.eqb c "/"%char.

(** The part of [s] before its last separator, if it has one. *)
Fixpoint parent_path (s : string) : option string :=
  match s with
  | EmptyString => None
  | String c s' =>
      match parent_path s' with
      | Some p => Some (String c p)
      | None => if is_separator c then Some EmptyString else None
      end
  end.

Definition has_root_directory (s : string) : bool :=
  match s with
  | String c _ => is_separator c
  | EmptyString => false
  end.

Fixpoint ends_with_separator (s : string) : bool :=
  match s with
  | EmptyString => false
  | String c EmptyString => is_separator c
  | String _ s' => ends_with_separator s'
  end.

Definition remove_filename (s : string) : string :=
  match parent_path s with
  | Some EmptyString => "/"
  | Some p => p
  | None => EmptyString
  end.

Definition append (a b : string) : string :=
  if empty a then b
  else if ends_with_separator a then a ++ b
  else a ++ "/" ++ b.

(** [cwd] is the current directory, [None] when it cannot be determined. *)
Definition make_absolute (cwd : option string) (path : string) : errc * string :=
  if has_root_directory path then (success, path)
  else
    match cwd with
    | Some dir => (success, append dir path)
    | None => (no_such_file_or_directory, path)
    end.

Definition support (cwd : option string) : LLVMSupport :=
  Build_LLVMSupport errc success errc_eq_dec message
                    (make_absolute cwd) remove_filename append.
End Posix.

Module Scripted.
(** An engine that records what it was given and refuses the names listed
    in [unopenable]. *)
Inductive Code : Type :=
| kOk | kOpenNameSpec | kOpenObjectFile | kOpenOutput.

#[export] Instance Code_eq_dec : EqDecision Code.
Proof. solve_decision. Defined.

Definition describe (c : Code) : string :=
  match c with
  | kOk => "Succeeded"
  | kOpenNameSpec => "Open name spec"
  | kOpenObjectFile => "Open object file"
  | kOpenOutput => "Open output file"
  end.

Definition blank : LinkerConfig :=
  {| soName := EmptyString; sysRoot := None; dynamicLinkerPath := None;
     wrapSymbols := []; searchDirs := [] |}.

Definition refuses (unopenable : list string) (name : string) : bool :=
  bool_decide (name ∈ unopenable).

Definition open (unopenable : list string) (failure : Code) (name : string)
    (seen : list string) : Code * list string :=
  if refuses unopenable name then (failure, seen) else (kOk, seen ++ [name]).

Definition engine (unopenable : list string) : LinkerAPI :=
  {| ErrorCode := Code;
     kSuccess := kOk;
     ErrorCode_eq_dec := Code_eq_dec;
     GetErrorString := describe;
     LinkerConfig_new := fun _ => Some blank;
     Linker := list string;
     Linker_new := [];
     Linker_config := fun _ seen => (kOk, seen);
     Linker_setOutput := open unopenable kOpenOutput;
     Linker_addObject := open unopenable kOpenObjectFile;
     Linker_addNameSpec := open unopenable kOpenNameSpec;
     Linker_link := fun seen => (kOk, seen) |}.
End Scripted.

(** Options with every flag absent. *)
Definition no_options : Options :=
  {| OptTargetTriple := "arm-none-linux-gnueabi";
     OptOutputFilename := EmptyString;
     OptSysRoot := EmptyString;
     OptSearchDirList := [];
     OptSOName := EmptyString;
     OptShared := false;
     OptDyld := EmptyString;
     OptInputObjectFiles := [];
     OptNameSpecList := [];
     OptWrapList := [] |}.

Definition with_inputs (files libs : cl_list) (o : Options) : Options :=
  {| OptTargetTriple := OptTargetTriple o;
     OptOutputFilename := OptOutputFilename o;
     OptSysRoot := OptSysRoot o;
     OptSearchDirList := OptSearchDirList o;
     OptSOName := OptSOName o;
     OptShared := OptShared o;
     OptDyld := OptDyld o;
     OptInputObjectFiles := files;
     OptNameSpecList := libs;
     OptWrapList := OptWrapList o |}.

Definition with_output (out : string) (o : Options) : Options :=
  {| OptTargetTriple := OptTargetTriple o;
     OptOutputFilename := out;
     OptSysRoot := OptSysRoot o;
     OptSearchDirList := OptSearchDirList o;
     OptSOName := OptSOName o;
     OptShared := OptShared o;
     OptDyld := OptDyld o;
     OptInputObjectFiles := OptInputObjectFiles o;
     OptNameSpecList := OptNameSpecList o;
     OptWrapList := OptWrapList o |}.

Definition with_soname (name : string) (o : Options) : Options :=
  {| OptTargetTriple := OptTargetTriple o;
     OptOutputFilename := OptOutputFilename o;
     OptSysRoot := OptSysRoot o;
     OptSearchDirList := OptSearchDirList o;
     OptSOName := name;
     OptShared := OptShared o;
     OptDyld := OptDyld o;
     OptInputObjectFiles := OptInputObjectFiles o;
     OptNameSpecList := OptNameSpecList o;
     OptWrapList := OptWrapList o |}.

Definition with_shared (shared : bool) (o : Options) : Options :=
  {| OptTargetTriple := OptTargetTriple o;
     OptOutputFilename := OptOutputFilename o;
     OptSysRoot := OptSysRoot o;
     OptSearchDirList := OptSearchDirList o;
     OptSOName := OptSOName o;
     OptShared := shared;
     OptDyld := OptDyld o;
     OptInputObjectFiles := OptInputObjectFiles o;
     OptNameSpecList := OptNameSpecList o;
     OptWrapList := OptWrapList o |}.

(** ** Sample command lines *)

Module Sample.
(** [mcld a.o -lm b.o -lpthread] *)
Definition interleaved : Options :=
  with_inputs [("a.o", 1%N); ("b.o", 3%N)] [("m", 2%N); ("pthread", 4%N)] no_options.

(** [mcld -o out.bin a.o -lm b.o -lpthread] *)
Definition explicit : Options := with_output "out.bin" interleaved.

(** [mcld -soname libfoo.so a.o -lm b.o -lpthread] *)
Definition named : Options :=
  with_soname "libfoo.so"
    (with_inputs [("a.o", 3%N); ("b.o", 5%N)] [("m", 4%N); ("pthread", 6%N)] no_options).

(** [mcld /tmp/x/y.o] *)
Definition single : Options := with_inputs [("/tmp/x/y.o", 1%N)] [] no_options.

(** [mcld y.o] *)
Definition single_relative : Options := with_inputs [("y.o", 1%N)] [] no_options.

(** [mcld a.o -lb c.o -ld e.o] *)
Definition five : Options :=
  with_inputs [("a.o", 1%N); ("c.o", 3%N); ("e.o", 5%N)] [("b", 2%N); ("d", 4%N)]
              no_options.

(** Option lists in which an object file and a namespec both claim
    position 2. *)
Definition tied : Options :=
  with_inputs [("a.o", 1%N); ("b.o", 2%N); ("c.o", 5%N)] [("m", 2%N); ("pthread", 4%N)]
              no_options.

(** The collaborators of the sample runs: a POSIX file system with
    [/home/u] as current directory, or without a current directory, and an
    engine that accepts everything, or everything but [c.o]. *)
Definition in_home : LLVMSupport := Posix.support (Some "/home/u").
Definition nowhere : LLVMSupport := Posix.support None.
Definition accepting : LinkerAPI := Scripted.engine [].
Definition without_c : LinkerAPI := Scripted.engine ["c.o"].
End Sample.

(** [o2] is [o1] up to the value of [-shared]. *)
Definition differ_only_in_shared (o1 o2 : Options) : Prop :=
  o2 = with_shared (OptShared o2) o1.

(** Renumbering of the command-line positions of every list option, as
    when tokens are inserted in or removed from the command line. *)
Definition renumber_list (f : N -> N) (v : cl_list) : cl_list :=
  map (fun e => (fst e, f (snd e))) v.

Definition renumber (f : N -> N) (o : Options) : Options :=
  {| OptTargetTriple := OptTargetTriple o;
     OptOutputFilename := OptOutputFilename o;
     OptSysRoot := OptSysRoot o;
     OptSearchDirList := renumber_list f (OptSearchDirList o);
     OptSOName := OptSOName o;
     OptShared := OptShared o;
     OptDyld := OptDyld o;
     OptInputObjectFiles := renumber_list f (OptInputObjectFiles o);
     OptNameSpecList := renumber_list f (OptNameSpecList o);
     OptWrapList := renumber_list f (OptWrapList o) |}.

(** ** A stand-in engine with faults at every stage *)

Module Staged.
(** The error codes of this engine. *)
Inductive Code : Type :=
| Ok | NoBackend | CannotOpen | UnresolvedSymbols.

#[export] Instance Code_eq_dec : EqDecision Code.
Proof. solve_decision. Defined.

Definition describe (c : Code) : string :=
  match c with
  | Ok => "Succeeded"
  | NoBackend => "Cannot create backend"
  | CannotOpen => "Cannot open"
  | UnresolvedSymbols => "Unresolved symbols"
  end.

(** The engine counts the calls it accepted.  [memory] says whether a
    configuration can be allocated, [config_result] and [link_result] are
    what [config] and [link] answer, and the names in [unopenable] are
    refused by [setOutput], [addObject] and [addNameSpec]. *)
Definition answer (result : Code) (accepted : nat) : Code * nat :=
  (result, if bool_decide (result = Ok) then S accepted else accepted).

Definition open (unopenable : list string) (name : string) (accepted : nat)
  : Code * nat :=
  answer (if bool_decide (name ∈ unopenable) then CannotOpen else Ok) accepted.

Definition engine (memory : bool) (config_result link_result : Code)
    (unopenable : list string) : LinkerAPI :=
  {| ErrorCode := Code;
     kSuccess := Ok;
     ErrorCode_eq_dec := Code_eq_dec;
     GetErrorString := describe;
     LinkerConfig_new := fun _ => if memory then Some Scripted.blank else None;
     Linker := nat;
     Linker_new := 0;
     Linker_config := fun _ => answer config_result;
     Linker_setOutput := open unopenable;
     Linker_addObject := open unopenable;
     Linker_addNameSpec := open unopenable;
     Linker_link := answer link_result |}.
End Staged.

Definition with_config_options (sysroot dyld : string) (wraps dirs : cl_list)
    (o : Options) : Options :=
  {| OptTargetTriple := OptTargetTriple o;
     OptOutputFilename := OptOutputFilename o;
     OptSysRoot := sysroot;
     OptSearchDirList := dirs;
     OptSOName := OptSOName o;
     OptShared := OptShared o;
     OptDyld := dyld;
     OptInputObjectFiles := OptInputObjectFiles o;
     OptNameSpecList := OptNameSpecList o;
     OptWrapList := wraps |}.

Module Scenario.
(** [mcld -sysroot /sdk -L/lib -wrap malloc -L/usr/lib -wrap free -o out a.o] *)
Definition configured : Options :=
  with_config_options "/sdk" EmptyString
    [("malloc", 5%N); ("free", 8%N)] [("/lib", 3%N); ("/usr/lib", 6%N)]
    (with_output "out" (with_inputs [("a.o", 11%N)] [] no_options)).

(** Option lists whose positions are distinct but not increasing within
    the list of object files. *)
Definition unsorted : Options :=
  with_inputs [("a.o", 5%N); ("b.o", 1%N)] [("m", 3%N)] no_options.

Definition sound : LinkerAPI := Staged.engine true Staged.Ok Staged.Ok [].
Definition out_of_memory : LinkerAPI := Staged.engine false Staged.Ok Staged.Ok [].
Definition no_backend : LinkerAPI := Staged.engine true Staged.NoBackend Staged.Ok [].
Definition unresolved : LinkerAPI :=
  Staged.engine true Staged.Ok Staged.UnresolvedSymbols [].
Definition read_only : LinkerAPI := Staged.engine true Staged.Ok Staged.Ok ["a.out"].
End Scenario.

(** ** Vocabulary for traces *)

(** [InputSpecifier] of the specification: which of the two engine
    operations an input goes through, and the string it is given. *)
Inductive InputSpecifier : Type :=
| ObjectPath (path : string)
| NameSpec (namespec : string).

Section Vocabulary.
Context `{LLVMSupport} `{LinkerAPI}.

(** The resolver only writes diagnostics and consults the file system. *)
Definition resolver_event (e : Event) : Prop :=
  match e with
  | EvErrs _ | EvMakeAbsolute _ _ => True
  | _ => False
  end.

(** A call of [addObject] or [addNameSpec]. *)
Definition add_event (e : Event) : Prop :=
  match e with
  | EvAddObject _ _ | EvAddNameSpec _ _ => True
  | _ => False
  end.

(** An add call that returned [kSuccess]. *)
Definition add_succeeded (e : Event) : Prop :=
  match e with
  | EvAddObject _ result | EvAddNameSpec _ result => result = kSuccess
  | _ => False
  end.

(** An add call that returned something else. *)
Definition add_failed (e : Event) : Prop :=
  match e with
  | EvAddObject _ result | EvAddNameSpec _ result => result <> kSuccess
  | _ => False
  end.

Definition link_event (e : Event) : Prop :=
  match e with
  | EvLink _ => True
  | _ => False
  end.

(** A [setOutput] or add call that the engine refused. *)
Definition refused (e : Event) : Prop :=
  match e with
  | EvSetOutput _ result | EvAddObject _ result | EvAddNameSpec _ result =>
      result <> kSuccess
  | _ => False
  end.

(** What can happen before the output is bound: diagnostics, the path
    query of the resolver, and the configuration of the engine, with
    [so] as the configuration's soName. *)
Definition pre_output_event (so : string) (e : Event) : Prop :=
  match e with
  | EvErrs _ | EvMakeAbsolute _ _ => True
  | EvConfig config _ => soName config = so
  | _ => False
  end.

(** The soName the driver chooses when the output resolves to [out]. *)
Definition chosen_soName (opts : Options) (out : string) : string :=
  if empty (OptSOName opts) then out else OptSOName opts.

Definition output_failure_message (path : string) (result : ErrorCode) : string :=
  "Failed to open the output file! (detail: "
  ++ path ++ ": " ++ GetErrorString result ++ ")" ++ LF.

Definition link_failure_message (result : ErrorCode) : string :=
  "Failed to linking! (detail: " ++ GetErrorString result ++ LF.


(** The diagnostic that names the input of a failed add call. *)
Definition bind_failure_message (e : Event) : string :=
  match e with
  | EvAddObject path result =>
      "Failed to open the input file! (detail: "
      ++ path ++ ": " ++ GetErrorString result ++ ")" ++ LF
  | EvAddNameSpec namespec result =>
      "Failed to open the namespec! (detail: "
      ++ namespec ++ ": " ++ GetErrorString result ++ ")" ++ LF
  | _ => EmptyString
  end.

Definition input_of (e : Event) : option InputSpecifier :=
  match e with
  | EvAddObject path _ => Some (ObjectPath path)
  | EvAddNameSpec namespec _ => Some (NameSpec namespec)
  | _ => None
  end.

(** The inputs handed to the engine along a trace, in order. *)
Definition inputs_attempted (t : list Event) : list InputSpecifier :=
  omap input_of t.

(** The position under an iterator, [0] at [end()]: the values [filePos]
    and [libPos] take in [PrepareInputOutput]. *)
Definition cursor_pos (v : cl_list) (it : nat) : N :=
  match v !! it with
  | Some (_, pos) => pos
  | None => 0%N
  end.

(** From the iterators [fileIt] and [libIt] on, and given more than [n]
    turns, the loop of [PrepareInputOutput] returns, having attempted the
    inputs [planned] in that order: all of them when it returns [true], a
    prefix of them when an add call failed. *)
Definition merge_emits (opts : Options) (n fileIt libIt : nat)
    (planned : list InputSpecifier) : Prop :=
  forall (fuel : nat) (w : World),
    n < fuel ->
    exists b w' t,
      merge_loop opts fuel fileIt libIt w = Done b w' /\
      trace w' = trace w ++ t /\
      inputs_attempted t `prefix_of` planned /\
      (b = true -> inputs_attempted t = planned) /\
      (b = false -> Exists add_failed t).

(** The traces of the four-stage pipeline, with the exit code each one
    ends in: it stops before the output is bound; it stops because the
    output is refused; it stops at the first refused input; it stops
    because the link fails; it links. *)
Inductive pipeline_trace (so : string) : Z -> list Event -> Prop :=
| pipeline_not_configured pre :
    Forall (pre_output_event so) pre ->
    pipeline_trace so EXIT_FAILURE pre
| pipeline_output_refused pre out result :
    Forall (pre_output_event so) pre ->
    result <> kSuccess ->
    pipeline_trace so EXIT_FAILURE
      (pre ++ [EvSetOutput out result; EvErrs (output_failure_message out result)])
| pipeline_input_refused pre out adds e :
    Forall (pre_output_event so) pre ->
    Forall add_succeeded adds ->
    add_failed e ->
    pipeline_trace so EXIT_FAILURE
      (pre ++ EvSetOutput out kSuccess :: adds ++ [e; EvErrs (bind_failure_message e)])
| pipeline_link_failed pre out adds result :
    Forall (pre_output_event so) pre ->
    Forall add_succeeded adds ->
    result <> kSuccess ->
    pipeline_trace so EXIT_FAILURE
      (pre ++ EvSetOutput out kSuccess :: adds
           ++ [EvLink result; EvErrs (link_failure_message result)])
| pipeline_linked pre out adds :
    Forall (pre_output_event so) pre ->
    Forall add_succeeded adds ->
    pipeline_trace so EXIT_SUCCESS
      (pre ++ EvSetOutput out kSuccess :: adds ++ [EvLink kSuccess]).
End Vocabulary.

(** The elements of an option list as inputs of one kind, with their
    positions. *)
Definition tagged (kind : string -> InputSpecifier) (v : cl_list)
  : list (InputSpecifier * N) :=
  map (fun e => (kind (fst e), snd e)) v.

(** The position of a token after one more token has been put at
    position [at_pos] of the command line. *)
Definition shift_from (at_pos : N) (pos : N) : N :=
  if (pos <? at_pos)%N then pos else N.succ pos.

(** ** Vocabulary for the stages of a run *)

Section Stages.
Context `{LLVMSupport} `{LinkerAPI}.

Definition default_name_warning : string := "Use a.out for output file!" ++ LF.

Definition absolute_path_failure_message (path : string) (err : error_code) : string :=
  "Failed to determine the absolute path of `" ++ path
  ++ "'! (detail: " ++ error_message err ++ ")" ++ LF.

Definition out_of_memory_message : string :=
  "Out of memory when create the linker configuration!" ++ LF.

Definition config_failure_message (result : ErrorCode) : string :=
  "Failed to configure the linker! (detail: " ++ GetErrorString result ++ ")" ++ LF.

(** A [config], [setOutput] or [link] call that the engine refused. *)
Definition stage_refused (e : Event) : Prop :=
  match e with
  | EvConfig _ result | EvSetOutput _ result | EvLink result => result <> kSuccess
  | _ => False
  end.

(** The diagnostic the driver writes for such a call. *)
Definition stage_failure_message (e : Event) : string :=
  match e with
  | EvConfig _ result => config_failure_message result
  | EvSetOutput path result => output_failure_message path result
  | EvLink result => link_failure_message result
  | _ => EmptyString
  end.

(** The stage an engine call belongs to. *)
Definition stage_of (e : Event) : option nat :=
  match e with
  | EvConfig _ _ => Some 0
  | EvSetOutput _ _ => Some 1
  | EvAddObject _ _ | EvAddNameSpec _ _ => Some 2
  | EvLink _ => Some 3
  | EvErrs _ | EvMakeAbsolute _ _ => None
  end.

Definition stages (t : list Event) : list nat := omap stage_of t.

(** A later call is of a later stage, or both are input bindings. *)
Definition stage_follows (a b : nat) : Prop := a < b \/ (a = 2 /\ b = 2).

(** What was written to the diagnostic stream along a trace. *)
Definition diagnostics (t : list Event) : list string :=
  omap (fun e => match e with EvErrs msg => Some msg | _ => None end) t.

(** The object files, and the namespecs, handed to the engine along a
    trace. *)
Definition objects_attempted (t : list Event) : list string :=
  omap (fun e => match e with EvAddObject path _ => Some path | _ => None end) t.

Definition namespecs_attempted (t : list Event) : list string :=
  omap (fun e => match e with EvAddNameSpec namespec _ => Some namespec | _ => None end) t.

(** No object file and no namespec has position zero, and no position
    occurs in both lists. *)
Definition distinct_positions (opts : Options) : Prop :=
  Forall (fun x => x.2 <> 0%N) (OptInputObjectFiles opts)
  /\ Forall (fun x => x.2 <> 0%N) (OptNameSpecList opts)
  /\ forall pos, pos ∈ (OptInputObjectFiles opts).*2 -> pos ∉ (OptNameSpecList opts).*2.

(** The traces of [main] stage by stage, after the resolver has left [t1]
    on the trace and returned [out]. *)
Inductive staged_trace (t1 : list Event) (out : string) : Z -> list Event -> Prop :=
| staged_unresolved :
    out = EmptyString ->
    staged_trace t1 out EXIT_FAILURE t1
| staged_no_memory :
    out <> EmptyString ->
    staged_trace t1 out EXIT_FAILURE (t1 ++ [EvErrs out_of_memory_message])
| staged_config_refused config result :
    out <> EmptyString ->
    result <> kSuccess ->
    staged_trace t1 out EXIT_FAILURE
      (t1 ++ [EvConfig config result; EvErrs (config_failure_message result)])
| staged_output_refused config result :
    out <> EmptyString ->
    result <> kSuccess ->
    staged_trace t1 out EXIT_FAILURE
      (t1 ++ EvConfig config kSuccess
          :: [EvSetOutput out result; EvErrs (output_failure_message out result)])
| staged_input_refused config adds e :
    out <> EmptyString ->
    Forall add_succeeded adds ->
    add_failed e ->
    staged_trace t1 out EXIT_FAILURE
      (t1 ++ EvConfig config kSuccess :: EvSetOutput out kSuccess
          :: adds ++ [e; EvErrs (bind_failure_message e)])
| staged_link_failed config adds result :
    out <> EmptyString ->
    Forall add_succeeded adds ->
    result <> kSuccess ->
    staged_trace t1 out EXIT_FAILURE
      (t1 ++ EvConfig config kSuccess :: EvSetOutput out kSuccess
          :: adds ++ [EvLink result; EvErrs (link_failure_message result)])
| staged_linked config adds :
    out <> EmptyString ->
    Forall add_succeeded adds ->
    staged_trace t1 out EXIT_SUCCESS
      (t1 ++ EvConfig config kSuccess :: EvSetOutput out kSuccess
          :: adds ++ [EvLink kSuccess]).
End Stages.

(** ** Output resolution *)

Section OutputResolution.
Context `{LLVMSupport} `{LinkerAPI}.
Implicit Types (opts : Options) (w : World).

Lemma empty_true (s : string) : empty s = true <-> s = EmptyString.
Proof. destruct s; simpl; split; congruence. Qed.

Lemma empty_false (s : string) : empty s = false <-> s <> EmptyString.
Proof. destruct s; simpl; split; congruence. Qed.

Lemma c_str_nul_free (s : string) : nul_free s = true -> c_str s = s.
Proof.
  induction s as [|c s IH]; simpl; [done|].
  destruct (Ascii.eqb c zero); simpl; [done|].
  intros Hs. by rewrite IH.
Qed.

(** C5: a non-empty [-o] value is returned as it is, whatever the inputs;
    the world is left as it was, so nothing is written to the diagnostic
    stream and the file system is not consulted. *)
Theorem explicit_output_wins opts (pOutputPath : string) w :
  pOutputPath <> EmptyString ->
  DetermineOutputFilename opts pOutputPath w = Done pOutputPath w.
Proof.
  intros Hne. apply empty_false in Hne.
  unfold DetermineOutputFilename. by rewrite Hne.
Qed.

(** C7: without [-o] and with more than one input, the result is the
    literal [a.out] and the only thing that happens is the warning, once. *)
Theorem default_name_for_several_inputs opts w :
  1 < length (OptInputObjectFiles opts) ->
  DetermineOutputFilename opts EmptyString w
  = Done "a.out" (emit (EvErrs ("Use a.out for output file!" ++ LF)) w).
Proof.
  intros Hlen. unfold DetermineOutputFilename. simpl.
  destruct (Nat.ltb_spec 1 (length (OptInputObjectFiles opts))); [done|lia].
Qed.

(** C6: without [-o] and with exactly one input, the input path is made
    absolute; on success the result is that path with its file name
    replaced by [a.out]; on failure the offending path and the error's
    message are reported and the result is the empty string. *)
Theorem single_input_output opts (input_path : string) (pos : N) w :
  OptInputObjectFiles opts = [(input_path, pos)] ->
  (forall absolute,
      make_absolute input_path = (errc_success, absolute) ->
      nul_free (path_append (remove_filename absolute) "a.out") = true ->
      DetermineOutputFilename opts EmptyString w
      = Done (path_append (remove_filename absolute) "a.out")
             (emit (EvMakeAbsolute input_path errc_success) w))
  /\ (forall err absolute,
      make_absolute input_path = (err, absolute) ->
      err <> errc_success ->
      DetermineOutputFilename opts EmptyString w
      = Done EmptyString
             (emit (EvErrs ("Failed to determine the absolute path of `" ++ input_path
                            ++ "'! (detail: " ++ error_message err ++ ")" ++ LF))
                   (emit (EvMakeAbsolute input_path err) w))).
Proof.
  intros Hin. split.
  - intros absolute Habs Hnul.
    unfold DetermineOutputFilename, bind, at_index, fs_make_absolute.
    rewrite Hin. simpl. rewrite Habs. simpl.
    rewrite bool_decide_eq_false_2 by (intros Hc; by apply Hc).
    unfold ret. by rewrite c_str_nul_free.
  - intros err absolute Habs Herr.
    unfold DetermineOutputFilename, bind, at_index, fs_make_absolute.
    rewrite Hin. simpl. rewrite Habs. simpl.
    rewrite bool_decide_eq_true_2 by congruence.
    reflexivity.
Qed.

(** C2: without [-o] and without any input, [DetermineOutputFilename]
    reads element 0 of the empty input vector: the run leaves defined
    behaviour there, before anything is reported. *)
Theorem no_input_no_output_is_out_of_range opts :
  OptOutputFilename opts = EmptyString ->
  OptInputObjectFiles opts = [] ->
  run opts = Crash OutOfRange initial_world.
Proof.
  intros Hout Hin.
  unfold run, main, bind, DetermineOutputFilename, at_index.
  by rewrite Hout, Hin.
Qed.

Lemma DetermineOutputFilename_trace opts pOutputPath w out w' :
  DetermineOutputFilename opts pOutputPath w = Done out w' ->
  linker w' = linker w /\
  exists t, trace w' = trace w ++ t /\ Forall resolver_event t.
Proof.
  unfold DetermineOutputFilename, bind, at_index, fs_make_absolute, llvm_errs, ret, crash.
  destruct (empty pOutputPath); simpl.
  { destruct (1 <? _)%nat.
    - intros [= <- <-]. split; [done|]. eexists. split; [done|]. by repeat constructor.
    - destruct (OptInputObjectFiles opts !! 0) as [[input_path pos]|]; [|done].
      destruct (make_absolute input_path) as [err absolute] eqn:Habs. simpl.
      case_bool_decide; intros [= <- <-]; (split; [done|]); simpl.
      + rewrite <- app_assoc. eexists. split; [done|]. by repeat constructor.
      + eexists. split; [done|]. by repeat constructor. }
  intros [= <- <-]. split; [done|]. exists []. by rewrite app_nil_r.
Qed.

(** The resolver leaves defined behaviour exactly when there is neither an
    [-o] value nor an input. *)
Lemma DetermineOutputFilename_crash opts pOutputPath w f w' :
  DetermineOutputFilename opts pOutputPath w = Crash f w' ->
  f = OutOfRange /\ pOutputPath = EmptyString /\ OptInputObjectFiles opts = [] /\ w' = w.
Proof.
  unfold DetermineOutputFilename, bind, at_index, fs_make_absolute, llvm_errs, ret, crash.
  destruct (empty pOutputPath) eqn:He; simpl; [|done].
  apply empty_true in He.
  destruct (1 <? _)%nat; [done|].
  destruct (OptInputObjectFiles opts) as [|[input_path pos] rest] eqn:Hin; simpl.
  - by intros [= <- <-].
  - destruct (make_absolute input_path) as [err absolute]. simpl.
    by case_bool_decide.
Qed.
End OutputResolution.

(** ** Configuration *)

Section Configuration.
Context `{LLVMSupport} `{LinkerAPI}.
Implicit Types (opts : Options) (w : World) (config : LinkerConfig).

Lemma soName_addWrap symbols config :
  soName (fold_left addWrap symbols config) = soName config.
Proof.
  revert config. induction symbols as [|x symbols IH]; intros config; simpl; [done|].
  by rewrite IH.
Qed.

Lemma soName_addSearchDir dirs config :
  soName (fold_left addSearchDir dirs config) = soName config.
Proof.
  revert config. induction dirs as [|x dirs IH]; intros config; simpl; [done|].
  by rewrite IH.
Qed.

(** What [ConfigLinker] does to the world: it never crashes, it leaves a
    diagnostic or hands one configuration to the engine, and that
    configuration carries the expected soName. *)
Lemma ConfigLinker_trace opts pOutputFilename w :
  exists b w' t,
    ConfigLinker opts pOutputFilename w = Done b w' /\
    trace w' = trace w ++ t /\
    ((b = false /\ t = [EvErrs ("Out of memory when create the linker configuration!" ++ LF)])
     \/ exists config result,
         soName config
         = (if empty (OptSOName opts) then pOutputFilename else OptSOName opts) /\
         ((b = true /\ result = kSuccess /\ t = [EvConfig config result])
          \/ (b = false /\ result <> kSuccess /\
              t = [EvConfig config result;
                   EvErrs ("Failed to configure the linker! (detail: "
                           ++ GetErrorString result ++ ")" ++ LF)]))).
Proof.
  unfold ConfigLinker.
  destruct (LinkerConfig_new (OptTargetTriple opts)) as [config0|].
  2:{ eexists false, _, _. split; [reflexivity|]. split; [reflexivity|]. by left. }
  set (config := fold_left addSearchDir _ _).
  assert (Hso : soName config
                = if empty (OptSOName opts) then pOutputFilename else OptSOName opts).
  { unfold config. rewrite soName_addSearchDir, soName_addWrap.
    destruct (empty (OptSOName opts)), (empty (OptSysRoot opts)), (empty (OptDyld opts));
      reflexivity. }
  unfold bind, call.
  destruct (Linker_config config (linker w)) as [result l] eqn:Hcall.
  case_bool_decide as Hres.
  - eexists false, _, _. split; [reflexivity|]. simpl. rewrite <- app_assoc.
    split; [reflexivity|]. right. exists config, result. split; [done|].
    right. split; [done|]. split; [congruence|done].
  - eexists true, _, _. split; [reflexivity|]. simpl.
    split; [reflexivity|]. right. exists config, result. split; [done|].
    left. split; [done|]. split; [|done].
    destruct (decide (kSuccess = result)) as [->|]; [done|]. by destruct Hres.
Qed.

(** C8: in the configuration a successful [ConfigLinker] hands to the
    engine, soName is the [-soname] value when that is not empty, and the
    output file name it was given otherwise. *)
Theorem soname_of_built_configuration opts pOutputFilename w w' :
  ConfigLinker opts pOutputFilename w = Done true w' ->
  exists config,
    trace w' = trace w ++ [EvConfig config kSuccess] /\
    (OptSOName opts <> EmptyString -> soName config = OptSOName opts) /\
    (OptSOName opts = EmptyString -> soName config = pOutputFilename).
Proof.
  intros Hrun.
  destruct (ConfigLinker_trace opts pOutputFilename w)
    as (b & w1 & t & Heq & Ht & Hcases).
  rewrite Hrun in Heq. injection Heq as <- <-.
  destruct Hcases as [[? _]|(config & result & Hso & [(_ & -> & ->)|(? & _)])];
    [done| |done].
  exists config. split; [done|]. split.
  - intros Hne. apply empty_false in Hne. by rewrite Hne in Hso.
  - intros Hempty. apply empty_true in Hempty. by rewrite Hempty in Hso.
Qed.
End Configuration.

(** ** The merge loop *)

Section MergeLoop.
Context `{LLVMSupport} `{LinkerAPI}.
Variable opts : Options.
Implicit Types (w : World) (fileIt libIt fuel : nat).

Let files := OptInputObjectFiles opts.
Let libs := OptNameSpecList opts.

(** Reading the position under an iterator that is within [begin, end]. *)
Lemma read_position (v : cl_list) (it : nat) :
  it <= length v ->
  (if bool_decide (it <> length v) then getPosition v it else ret 0%N)
  = ret (cursor_pos v it).
Proof.
  intros Hle. unfold getPosition, cursor_pos.
  case_bool_decide as Hit.
  - destruct (lookup_lt_is_Some_2 v it) as [[s pos] Hv]; [lia|]. by rewrite Hv.
  - subst it.
    by rewrite (lookup_ge_None_2 v (length v)).
Qed.

Lemma cursor_pos_lookup (v : cl_list) (it : nat) :
  cursor_pos v it <> 0%N ->
  exists s, v !! it = Some (s, cursor_pos v it).
Proof.
  unfold cursor_pos. destruct (v !! it) as [[s pos]|]; [eauto|done].
Qed.

(** The first branch of the loop body: the object file is next. *)
Lemma merge_body_object fileIt libIt (path : string) (filePos : N) w :
  libIt <= length libs ->
  files !! fileIt = Some (path, filePos) ->
  filePos <> 0%N ->
  cursor_pos libs libIt = 0%N \/ (filePos < cursor_pos libs libIt)%N ->
  merge_body opts fileIt libIt w
  = (let* result := call (Linker_addObject path) (EvAddObject path) in
     if bool_decide (kSuccess <> result) then
       let* _ := llvm_errs (bind_failure_message (EvAddObject path result)) in
       ret (Return false)
     else ret (Continue (S fileIt) libIt)) w.
Proof.
  intros Hlib Hfile Hpos Hcmp. unfold merge_body. fold files libs.
  rewrite (read_position libs) by done.
  rewrite (read_position files) by (apply lookup_lt_Some in Hfile; lia).
  unfold bind at 1 2, ret at 1 2.
  assert (cursor_pos files fileIt = filePos) as -> by (unfold cursor_pos; by rewrite Hfile).
  rewrite (bool_decide_eq_true_2 (filePos <> 0%N)) by done. simpl.
  assert (bool_decide (cursor_pos libs libIt = 0%N)
          || (filePos <? cursor_pos libs libIt)%N = true) as ->.
  { destruct Hcmp as [->|Hlt]; [done|].
    apply N.ltb_lt in Hlt. rewrite Hlt. apply orb_true_r. }
  unfold at_index. by rewrite Hfile.
Qed.

(** The second branch: the namespec is next. *)
Lemma merge_body_namespec fileIt libIt (namespec : string) (libPos : N) w :
  fileIt <= length files ->
  libs !! libIt = Some (namespec, libPos) ->
  libPos <> 0%N ->
  cursor_pos files fileIt = 0%N \/ (libPos < cursor_pos files fileIt)%N ->
  merge_body opts fileIt libIt w
  = (let* result := call (Linker_addNameSpec namespec) (EvAddNameSpec namespec) in
     if bool_decide (kSuccess <> result) then
       let* _ := llvm_errs (bind_failure_message (EvAddNameSpec namespec result)) in
       ret (Return false)
     else ret (Continue fileIt (S libIt))) w.
Proof.
  intros Hfile Hlib Hpos Hcmp. unfold merge_body. fold files libs.
  rewrite (read_position libs) by (apply lookup_lt_Some in Hlib; lia).
  rewrite (read_position files) by done.
  unfold bind at 1 2, ret at 1 2.
  assert (cursor_pos libs libIt = libPos) as -> by (unfold cursor_pos; by rewrite Hlib).
  assert (bool_decide (cursor_pos files fileIt <> 0%N)
          && (bool_decide (libPos = 0%N) || (cursor_pos files fileIt <? libPos)%N) = false) as ->.
  { destruct Hcmp as [->|Hlt]; [done|].
    rewrite (bool_decide_eq_false_2 (libPos = 0%N)) by done. simpl.
    apply andb_false_intro2. apply N.ltb_ge. lia. }
  rewrite (bool_decide_eq_true_2 (libPos <> 0%N)) by done. simpl.
  assert (bool_decide (cursor_pos files fileIt = 0%N)
          || (libPos <? cursor_pos files fileIt)%N = true) as ->.
  { destruct Hcmp as [->|Hlt]; [done|].
    apply N.ltb_lt in Hlt. rewrite Hlt. apply orb_true_r. }
  unfold at_index. by rewrite Hlib.
Qed.

(** The last branch: both positions are the same. *)
Lemma merge_body_break fileIt libIt w :
  fileIt <= length files ->
  libIt <= length libs ->
  cursor_pos files fileIt = cursor_pos libs libIt ->
  merge_body opts fileIt libIt w = Done Break w.
Proof.
  intros Hfile Hlib Hcmp. unfold merge_body. fold files libs.
  rewrite (read_position libs), (read_position files) by done.
  unfold bind at 1 2, ret at 1 2. rewrite Hcmp.
  assert ((cursor_pos libs libIt <? cursor_pos libs libIt)%N = false) as ->
      by (apply N.ltb_ge; lia).
  rewrite !orb_false_r.
  destruct (bool_decide (cursor_pos libs libIt <> 0%N)) eqn:Hne,
           (bool_decide (cursor_pos libs libIt = 0%N)) eqn:Heq; simpl; try done.
  apply bool_decide_eq_true in Hne, Heq. done.
Qed.

(** The three branches cover everything. *)
Lemma cursor_cases (filePos libPos : N) :
  (filePos <> 0%N /\ (libPos = 0%N \/ (filePos < libPos)%N))
  \/ (libPos <> 0%N /\ (filePos = 0%N \/ (libPos < filePos)%N))
  \/ filePos = libPos.
Proof. lia. Qed.

(** The loop returns, and what it leaves on the trace is a run of
    successful add calls, followed, when it returns [false], by the failed
    call and the diagnostic that names its input. *)
Lemma merge_loop_trace fuel : forall fileIt libIt w,
  fileIt <= length files ->
  libIt <= length libs ->
  (length files - fileIt) + (length libs - libIt) < fuel ->
  exists b w' adds,
    merge_loop opts fuel fileIt libIt w = Done b w' /\
    Forall add_succeeded adds /\
    ((b = true /\ trace w' = trace w ++ adds)
     \/ (b = false /\ exists e,
           add_failed e /\
           trace w' = trace w ++ adds ++ [e; EvErrs (bind_failure_message e)])).
Proof.
  induction fuel as [|fuel IH]; intros fileIt libIt w Hfile Hlib Hfuel; [lia|].
  simpl. unfold bind at 1.
  destruct (cursor_cases (cursor_pos files fileIt) (cursor_pos libs libIt))
    as [[Hpos Hcmp]|[[Hpos Hcmp]|Heq]].
  - destruct (cursor_pos_lookup files fileIt Hpos) as [path Hpath].
    rewrite (merge_body_object _ _ _ _ _ Hlib Hpath Hpos Hcmp).
    apply lookup_lt_Some in Hpath.
    unfold bind, call. destruct (Linker_addObject path (linker w)) as [result l].
    case_bool_decide as Hres; simpl.
    + eexists false, _, []. split; [reflexivity|]. split; [constructor|]. right.
      split; [done|]. exists (EvAddObject path result).
      split; [simpl; congruence|]. simpl. by rewrite <- app_assoc.
    + destruct (IH (S fileIt) libIt
                  {| linker := l; trace := trace w ++ [EvAddObject path result] |})
        as (b & w' & adds & Hrun & Hadds & Htrace); [lia..|].
      exists b, w', (EvAddObject path result :: adds).
      split; [done|]. split.
      { constructor; [simpl; congruence|done]. }
      destruct Htrace as [[-> ->]|(-> & e & He & ->)]; [left|right];
        (split; [done|]); simpl.
      * by rewrite <- app_assoc.
      * exists e. split; [done|]. by rewrite <- !app_assoc.
  - destruct (cursor_pos_lookup libs libIt Hpos) as [namespec Hname].
    rewrite (merge_body_namespec _ _ _ _ _ Hfile Hname Hpos Hcmp).
    apply lookup_lt_Some in Hname.
    unfold bind, call. destruct (Linker_addNameSpec namespec (linker w)) as [result l].
    case_bool_decide as Hres; simpl.
    + eexists false, _, []. split; [reflexivity|]. split; [constructor|]. right.
      split; [done|]. exists (EvAddNameSpec namespec result).
      split; [simpl; congruence|]. simpl. by rewrite <- app_assoc.
    + destruct (IH fileIt (S libIt)
                  {| linker := l; trace := trace w ++ [EvAddNameSpec namespec result] |})
        as (b & w' & adds & Hrun & Hadds & Htrace); [lia..|].
      exists b, w', (EvAddNameSpec namespec result :: adds).
      split; [done|]. split.
      { constructor; [simpl; congruence|done]. }
      destruct Htrace as [[-> ->]|(-> & e & He & ->)]; [left|right];
        (split; [done|]); simpl.
      * by rewrite <- app_assoc.
      * exists e. split; [done|]. by rewrite <- !app_assoc.
  - rewrite (merge_body_break _ _ _ Hfile Hlib Heq).
    exists true, w, []. split; [done|]. split; [constructor|]. left.
    by rewrite app_nil_r.
Qed.

(** C9: when the object file and the namespec under the iterators carry
    the same non-zero position, the loop ends at once and returns [true]:
    the world is as it was, so nothing that remains in either list is
    handed to the engine and nothing is reported. *)
Theorem tie_stops_merge fuel fileIt libIt (path namespec : string) (pos : N) w :
  OptInputObjectFiles opts !! fileIt = Some (path, pos) ->
  OptNameSpecList opts !! libIt = Some (namespec, pos) ->
  pos <> 0%N ->
  merge_loop opts (S fuel) fileIt libIt w = Done true w.
Proof.
  intros Hfile Hlib _. simpl. unfold bind.
  rewrite merge_body_break; [done|..].
  - apply lookup_lt_Some in Hfile. fold files in Hfile. lia.
  - apply lookup_lt_Some in Hlib. fold libs in Hlib. lia.
  - unfold cursor_pos, files, libs. by rewrite Hfile, Hlib.
Qed.

(** One turn through the object-file branch, in front of a loop that
    emits [planned]. *)
Lemma merge_emits_object n fileIt libIt (path : string) (filePos : N) planned :
  libIt <= length libs ->
  files !! fileIt = Some (path, filePos) ->
  filePos <> 0%N ->
  cursor_pos libs libIt = 0%N \/ (filePos < cursor_pos libs libIt)%N ->
  merge_emits opts n (S fileIt) libIt planned ->
  merge_emits opts (S n) fileIt libIt (ObjectPath path :: planned).
Proof.
  intros Hlib Hpath Hpos Hcmp Hrest fuel w Hfuel.
  destruct fuel as [|fuel]; [lia|]. simpl. unfold bind at 1.
  rewrite (merge_body_object _ _ _ _ _ Hlib Hpath Hpos Hcmp).
  unfold bind, call. destruct (Linker_addObject path (linker w)) as [result l].
  case_bool_decide as Hres; simpl.
  - eexists false, _, [EvAddObject path result; EvErrs _].
    split; [reflexivity|]. simpl. rewrite <- app_assoc.
    split; [done|]. split; [apply prefix_cons, prefix_nil|]. split; [done|].
    intros _. apply Exists_cons_hd. simpl. congruence.
  - destruct (Hrest fuel {| linker := l; trace := trace w ++ [EvAddObject path result] |})
      as (b & w' & t & Hrun & Htrace & Hprefix & Hall & Hfail); [lia|].
    exists b, w', (EvAddObject path result :: t). split; [done|].
    simpl in Htrace. rewrite <- app_assoc in Htrace.
    split; [done|]. split; [by apply prefix_cons|]. split.
    + intros Hb. simpl. by rewrite <- Hall.
    + intros Hb. apply Exists_cons_tl. auto.
Qed.

(** One turn through the namespec branch. *)
Lemma merge_emits_namespec n fileIt libIt (namespec : string) (libPos : N) planned :
  fileIt <= length files ->
  libs !! libIt = Some (namespec, libPos) ->
  libPos <> 0%N ->
  cursor_pos files fileIt = 0%N \/ (libPos < cursor_pos files fileIt)%N ->
  merge_emits opts n fileIt (S libIt) planned ->
  merge_emits opts (S n) fileIt libIt (NameSpec namespec :: planned).
Proof.
  intros Hfile Hname Hpos Hcmp Hrest fuel w Hfuel.
  destruct fuel as [|fuel]; [lia|]. simpl. unfold bind at 1.
  rewrite (merge_body_namespec _ _ _ _ _ Hfile Hname Hpos Hcmp).
  unfold bind, call. destruct (Linker_addNameSpec namespec (linker w)) as [result l].
  case_bool_decide as Hres; simpl.
  - eexists false, _, [EvAddNameSpec namespec result; EvErrs _].
    split; [reflexivity|]. simpl. rewrite <- app_assoc.
    split; [done|]. split; [apply prefix_cons, prefix_nil|]. split; [done|].
    intros _. apply Exists_cons_hd. simpl. congruence.
  - destruct (Hrest fuel {| linker := l; trace := trace w ++ [EvAddNameSpec namespec result] |})
      as (b & w' & t & Hrun & Htrace & Hprefix & Hall & Hfail); [lia|].
    exists b, w', (EvAddNameSpec namespec result :: t). split; [done|].
    simpl in Htrace. rewrite <- app_assoc in Htrace.
    split; [done|]. split; [by apply prefix_cons|]. split.
    + intros Hb. simpl. by rewrite <- Hall.
    + intros Hb. apply Exists_cons_tl. auto.
Qed.

(** At the end of both lists the loop stops. *)
Lemma merge_emits_end :
  merge_emits opts 0 (length files) (length libs) [].
Proof.
  intros fuel w Hfuel. destruct fuel as [|fuel]; [lia|]. simpl. unfold bind.
  rewrite merge_body_break; [|done..|].
  - exists true, w, []. by rewrite app_nil_r.
  - unfold cursor_pos. by rewrite !lookup_ge_None_2.
Qed.

Lemma tagged_positions (kind : string -> InputSpecifier) (v : cl_list) :
  (tagged kind v).*2 = v.*2.
Proof. induction v as [|e v IH]; [done|]. unfold tagged in *. simpl. by f_equal. Qed.

Lemma drop_cons_lookup {A} (l : list A) (i : nat) (x : A) (rest : list A) :
  drop i l = x :: rest -> l !! i = Some x /\ drop (S i) l = rest.
Proof.
  intros Hdrop.
  assert (l !! i = Some x) as Hx.
  { pose proof (lookup_drop l i 0) as Hl. rewrite Hdrop, Nat.add_0_r in Hl. done. }
  split; [done|]. rewrite (drop_S l x i Hx) in Hdrop. by injection Hdrop.
Qed.

Lemma drop_nil_end {A} (l : list A) (i : nat) :
  drop i l = [] -> i <= length l -> i = length l.
Proof.
  intros Hdrop Hle. apply (f_equal length) in Hdrop.
  rewrite length_drop in Hdrop. simpl in Hdrop. lia.
Qed.

(** The loop as a merge: from iterators that stand in front of [fs] and
    [ls], two position-sorted runs without a common or zero position, it
    emits their union in increasing position. *)
Lemma merge_loop_sorted n : forall (fs ls : cl_list) fileIt libIt,
  length fs + length ls = n ->
  drop fileIt files = fs ->
  drop libIt libs = ls ->
  fileIt <= length files ->
  libIt <= length libs ->
  Forall (fun e => e.2 <> 0%N) fs ->
  Forall (fun e => e.2 <> 0%N) ls ->
  StronglySorted N.lt fs.*2 ->
  StronglySorted N.lt ls.*2 ->
  (forall pos, pos ∈ fs.*2 -> pos ∉ ls.*2) ->
  exists merged : list (InputSpecifier * N),
    merged ≡ₚ tagged ObjectPath fs ++ tagged NameSpec ls /\
    StronglySorted N.lt merged.*2 /\
    merge_emits opts n fileIt libIt merged.*1.
Proof.
  induction n as [|n IH];
    intros fs ls fileIt libIt Hn Hfs Hls Hfile Hlib Hfpos Hlpos Hfsort Hlsort Hdisj.
  { destruct fs, ls; try done.
    apply drop_nil_end in Hfs, Hls; [|done..]. subst fileIt libIt.
    exists []. split; [done|]. split; [constructor|]. apply merge_emits_end. }
  (* the object file at the head of [fs] goes first *)
  assert (forall path pos fs',
             fs = (path, pos) :: fs' ->
             cursor_pos libs libIt = 0%N \/ (pos < cursor_pos libs libIt)%N ->
             Forall (N.lt pos) ls.*2 ->
             exists merged : list (InputSpecifier * N),
               merged ≡ₚ tagged ObjectPath fs ++ tagged NameSpec ls /\
               StronglySorted N.lt merged.*2 /\
               merge_emits opts (S n) fileIt libIt merged.*1) as Hobject.
  { intros path pos fs' -> Hcmp Hbelow.
    destruct (drop_cons_lookup _ _ _ _ Hfs) as [Hpath Hfs'].
    apply Forall_cons_1 in Hfpos as [Hpos Hfpos].
    simpl in Hfsort. apply StronglySorted_inv in Hfsort as [Hfsort Hhead].
    destruct (IH fs' ls (S fileIt) libIt) as (merged & Hperm & Hsorted & Hemits);
      try done.
    { simpl in Hn. lia. }
    { apply lookup_lt_Some in Hpath. fold files in Hpath. lia. }
    { intros p Hp. apply Hdisj. simpl. by apply list_elem_of_further. }
    exists ((ObjectPath path, pos) :: merged). split; [|split].
    - simpl. by constructor.
    - simpl. constructor; [done|].
      rewrite Hperm, fmap_app, !tagged_positions. by apply Forall_app.
    - simpl. by eapply merge_emits_object. }
  (* the namespec at the head of [ls] goes first *)
  assert (forall namespec pos ls',
             ls = (namespec, pos) :: ls' ->
             cursor_pos files fileIt = 0%N \/ (pos < cursor_pos files fileIt)%N ->
             Forall (N.lt pos) fs.*2 ->
             exists merged : list (InputSpecifier * N),
               merged ≡ₚ tagged ObjectPath fs ++ tagged NameSpec ls /\
               StronglySorted N.lt merged.*2 /\
               merge_emits opts (S n) fileIt libIt merged.*1) as Hnamespec.
  { intros namespec pos ls' -> Hcmp Hbelow.
    destruct (drop_cons_lookup _ _ _ _ Hls) as [Hname Hls'].
    apply Forall_cons_1 in Hlpos as [Hpos Hlpos].
    simpl in Hlsort. apply StronglySorted_inv in Hlsort as [Hlsort Hhead].
    destruct (IH fs ls' fileIt (S libIt)) as (merged & Hperm & Hsorted & Hemits);
      try done.
    { rewrite length_cons in Hn. lia. }
    { apply lookup_lt_Some in Hname. fold libs in Hname. lia. }
    { intros p Hp Hin. apply (Hdisj p Hp). simpl. by apply list_elem_of_further. }
    exists ((NameSpec namespec, pos) :: merged). split; [|split].
    - simpl. rewrite Hperm. apply Permutation_middle.
    - simpl. constructor; [done|].
      rewrite Hperm, fmap_app, !tagged_positions. by apply Forall_app.
    - simpl. by eapply merge_emits_namespec. }
  destruct fs as [|[path fpos] fs'], ls as [|[namespec lpos] ls'].
  - done.
  - apply (Hnamespec namespec lpos ls'); [done| |constructor].
    left. apply drop_nil_end in Hfs; [|done]. subst fileIt.
    unfold cursor_pos. by rewrite lookup_ge_None_2.
  - apply (Hobject path fpos fs'); [done| |constructor].
    left. apply drop_nil_end in Hls; [|done]. subst libIt.
    unfold cursor_pos. by rewrite lookup_ge_None_2.
  - destruct (drop_cons_lookup _ _ _ _ Hfs) as [Hpath _].
    destruct (drop_cons_lookup _ _ _ _ Hls) as [Hname _].
    pose proof Hfsort as Hfsort'. pose proof Hlsort as Hlsort'.
    simpl in Hfsort', Hlsort'.
    apply StronglySorted_inv in Hfsort' as [_ Hfhead].
    apply StronglySorted_inv in Hlsort' as [_ Hlhead].
    destruct (N.lt_trichotomy fpos lpos) as [Hlt|[Heq|Hgt]].
    + apply (Hobject path fpos fs'); [done| |].
      * right. unfold cursor_pos. fold libs in Hname. by rewrite Hname.
      * simpl. constructor; [done|].
        eapply Forall_impl; [|exact Hlhead]. intros p Hp. simpl in Hp. lia.
    + exfalso. apply (Hdisj fpos); simpl; [apply list_elem_of_here|].
      rewrite Heq. apply list_elem_of_here.
    + apply (Hnamespec namespec lpos ls'); [done| |].
      * right. unfold cursor_pos. fold files in Hpath. by rewrite Hpath.
      * simpl. constructor; [done|].
        eapply Forall_impl; [|exact Hfhead]. intros p Hp. simpl in Hp. lia.
Qed.
End MergeLoop.

(** ** The pipeline *)

Section Pipeline.
Context `{LLVMSupport} `{LinkerAPI}.
Implicit Types (opts : Options) (w : World) (e : Event).

(** [PrepareInputOutput] returns; it first binds the output, and goes on
    to the inputs only if that succeeded. *)
Lemma PrepareInputOutput_trace opts (pOutputPath : string) w :
  exists b w',
    PrepareInputOutput opts pOutputPath w = Done b w' /\
    ((exists result,
         result <> kSuccess /\ b = false /\
         trace w' = trace w ++ [EvSetOutput pOutputPath result;
                                EvErrs (output_failure_message pOutputPath result)])
     \/ exists adds,
         Forall add_succeeded adds /\
         ((b = true /\ trace w' = trace w ++ EvSetOutput pOutputPath kSuccess :: adds)
          \/ (b = false /\ exists e,
                add_failed e /\
                trace w' = trace w ++ EvSetOutput pOutputPath kSuccess :: adds
                                   ++ [e; EvErrs (bind_failure_message e)]))).
Proof.
  unfold PrepareInputOutput, bind, call.
  destruct (Linker_setOutput pOutputPath (linker w)) as [result l].
  case_bool_decide as Hres; simpl.
  - eexists false, _. split; [reflexivity|]. left. exists result.
    split; [congruence|]. split; [done|]. simpl. by rewrite <- app_assoc.
  - subst result.
    destruct (merge_loop_trace opts (merge_fuel opts) 0 0
                {| linker := l; trace := trace w ++ [EvSetOutput pOutputPath kSuccess] |})
      as (b & w' & adds & Hrun & Hadds & Htrace); [lia..|unfold merge_fuel; lia|].
    exists b, w'. split; [done|]. right. exists adds. split; [done|].
    destruct Htrace as [[-> ->]|(-> & e & He & ->)]; [left|right];
      (split; [done|]); simpl.
    + by rewrite <- app_assoc.
    + exists e. split; [done|]. by rewrite <- app_assoc.
Qed.

Lemma LinkFiles_trace w :
  exists b w' result,
    LinkFiles w = Done b w' /\
    ((b = true /\ result = kSuccess /\ trace w' = trace w ++ [EvLink result])
     \/ (b = false /\ result <> kSuccess /\
         trace w' = trace w ++ [EvLink result; EvErrs (link_failure_message result)])).
Proof.
  unfold LinkFiles, bind, call.
  destruct (Linker_link (linker w)) as [result l].
  case_bool_decide as Hres; simpl.
  - eexists false, _, result. split; [reflexivity|]. right.
    split; [done|]. split; [congruence|]. simpl. by rewrite <- app_assoc.
  - eexists true, _, result. split; [reflexivity|]. left. by simpl.
Qed.

Lemma resolver_event_pre_output (so : string) e :
  resolver_event e -> pre_output_event so e.
Proof. by destruct e. Qed.

(** Every run that returns follows the pipeline. *)
Lemma run_pipeline opts (code : Z) w' :
  run opts = Done code w' ->
  exists out w1,
    DetermineOutputFilename opts (OptOutputFilename opts) initial_world = Done out w1
    /\ pipeline_trace (chosen_soName opts out) code (trace w').
Proof.
  unfold run, main. unfold bind at 1.
  destruct (DetermineOutputFilename opts (OptOutputFilename opts) initial_world)
    as [out w1|] eqn:Hresolve; [|done].
  intros Hrun. exists out, w1. split; [done|]. revert Hrun.
  apply DetermineOutputFilename_trace in Hresolve as (_ & t1 & Ht1 & Hpre1).
  simpl in Ht1.
  assert (Forall (pre_output_event (chosen_soName opts out)) t1) as Hpre
    by (eapply Forall_impl; [apply resolver_event_pre_output|done]).
  destruct (empty out).
  { intros [= <- <-]. rewrite Ht1. by constructor. }
  unfold bind at 1.
  destruct (ConfigLinker_trace opts out w1) as (b2 & w2 & t2 & -> & Ht2 & Hconfig).
  assert (Forall (pre_output_event (chosen_soName opts out)) (t1 ++ t2)
          /\ (b2 = false \/ b2 = true)) as [Hpre2 Hb2].
  { destruct Hconfig as [[-> ->]|(config & result & Hso & [(-> & _ & ->)|(-> & _ & ->)])];
      (split; [apply Forall_app; split; [done|]; by repeat constructor|auto]). }
  rewrite Ht1 in Ht2. clear Hconfig.
  destruct Hb2 as [-> | ->]; simpl.
  { intros [= <- <-]. rewrite Ht2. by constructor. }
  unfold bind at 1.
  destruct (PrepareInputOutput_trace opts out w2) as (b3 & w3 & -> & Hprepare).
  destruct Hprepare
    as [(result & Hres & -> & Ht3)|(adds & Hadds & [[-> Ht3]|(-> & e & He & Ht3)])];
    simpl.
  { intros [= <- <-]. rewrite Ht3, Ht2. by constructor. }
  2:{ intros [= <- <-]. rewrite Ht3, Ht2. by constructor. }
  unfold bind at 1.
  destruct (LinkFiles_trace w3) as (b4 & w4 & result & -> & Hlink).
  destruct Hlink as [(-> & -> & Ht4)|(-> & Hres & Ht4)]; simpl;
    intros [= <- <-]; rewrite Ht4, Ht3, Ht2, <- (app_assoc (t1 ++ t2)); simpl;
    by constructor.
Qed.

(** A run leaves defined behaviour only in the resolver, with neither
    [-o] nor an input; in particular the merge loop is never cut short. *)
Lemma run_crash opts (f : Fault) w' :
  run opts = Crash f w' ->
  f = OutOfRange /\ OptOutputFilename opts = EmptyString
  /\ OptInputObjectFiles opts = [] /\ w' = initial_world.
Proof.
  unfold run, main. unfold bind at 1.
  destruct (DetermineOutputFilename opts (OptOutputFilename opts) initial_world)
    as [out w1|f1 w1] eqn:Hresolve.
  2:{ intros [= <- <-]. by apply DetermineOutputFilename_crash in Hresolve. }
  destruct (empty out); [done|].
  unfold bind at 1.
  destruct (ConfigLinker_trace opts out w1) as (b2 & w2 & t2 & -> & _).
  destruct b2; simpl; [|done].
  unfold bind at 1.
  destruct (PrepareInputOutput_trace opts out w2) as (b3 & w3 & -> & _).
  destruct b3; simpl; [|done].
  unfold bind at 1.
  destruct (LinkFiles_trace w3) as (b4 & w4 & result & -> & _).
  by destruct b4.
Qed.

(** Where an event falls in a trace that starts with a run of events of
    another kind. *)
Lemma split_after_prefix {A} (P : A -> Prop) (l1 l2 before after : list A) (x : A) :
  Forall P l1 -> ~ P x ->
  l1 ++ l2 = before ++ x :: after ->
  exists mid, before = l1 ++ mid /\ l2 = mid ++ x :: after.
Proof.
  revert before. induction l1 as [|a l1 IH]; intros before Hall Hx Heq; simpl in *.
  - by exists before.
  - apply Forall_cons_1 in Hall as [Ha Hall].
    destruct before as [|b before]; simpl in Heq; injection Heq as -> Heq.
    + done.
    + destruct (IH before Hall Hx Heq) as (mid & -> & ->). by exists mid.
Qed.

Lemma Forall_at {A} (P : A -> Prop) (l before after : list A) (x : A) :
  Forall P l -> l = before ++ x :: after -> P x.
Proof.
  intros Hall ->. apply Forall_app in Hall as [_ Hall].
  by apply Forall_cons_1 in Hall as [? _].
Qed.

Ltac forall_trace :=
  repeat match goal with
    | |- Forall _ (_ ++ _) => apply Forall_app; split
    | |- Forall _ (_ :: _) => constructor
    | |- Forall _ [] => constructor
    | Hall : Forall _ ?l |- Forall _ ?l =>
        eapply Forall_impl; [|exact Hall]; intros []; simpl; tauto || congruence
    end.

(** C3: when an add call is refused, it is the last call the run makes:
    only the diagnostic that names that input follows it, no input is
    attempted after it, the run ends in failure and the link operation
    does not occur anywhere in the run. *)
Theorem fail_fast_on_bind_error opts (before after : list Event) e :
  trace (final_world (run opts)) = before ++ e :: after ->
  add_failed e ->
  after = [EvErrs (bind_failure_message e)]
  /\ Forall (fun x => ~ add_event x) after
  /\ Forall (fun x => ~ link_event x) (trace (final_world (run opts)))
  /\ returned (run opts) = Some EXIT_FAILURE.
Proof.
  intros Htrace Hfailed.
  destruct (run opts) as [code w'|f w'] eqn:Hrun; simpl in *.
  2:{ apply run_crash in Hrun as (_ & _ & _ & ->). by destruct before. }
  apply run_pipeline in Hrun as (resolved & w1 & _ & Hrun).
  assert (forall l, Forall (fun x => ~ add_failed x) l -> l = trace w' -> False) as Hnone.
  { intros l Hall ->. by apply (Forall_at _ _ _ _ _ Hall Htrace). }
  destruct Hrun as [pre Hpre|pre out result Hpre Hres|pre out adds e0 Hpre Hadds He0
                   |pre out adds result Hpre Hadds Hres|pre out adds Hpre Hadds].
  1,2,4,5: exfalso; eapply Hnone; [|reflexivity]; forall_trace; simpl; tauto.
  replace (pre ++ EvSetOutput out kSuccess :: adds ++ [e0; EvErrs (bind_failure_message e0)])
    with ((pre ++ EvSetOutput out kSuccess :: adds) ++ [e0; EvErrs (bind_failure_message e0)])
    in Htrace by (by rewrite <- app_assoc).
  apply (split_after_prefix (fun x => ~ add_failed x)) in Htrace
      as (mid & -> & Hmid); [|forall_trace; simpl; tauto|tauto].
  destruct mid as [|m1 [|m2 mid]]; simpl in Hmid.
  - injection Hmid as <- <-. split; [done|]. split; [forall_trace; simpl; tauto|].
    split; [|done].
    forall_trace; simpl; try tauto. destruct e0; simpl in *; tauto.
  - injection Hmid as _ <- _. done.
  - injection Hmid as _ _ Hmid. by destruct mid.
Qed.

(** C4: an add call only occurs after a [setOutput] call that succeeded,
    and then no [setOutput] call of the run was refused: when [setOutput]
    fails, no input is ever bound. *)
Theorem output_bound_before_inputs opts (before after : list Event) e :
  trace (final_world (run opts)) = before ++ e :: after ->
  add_event e ->
  (exists out, EvSetOutput out kSuccess ∈ before)
  /\ (forall out result,
        EvSetOutput out result ∈ trace (final_world (run opts)) ->
        result = kSuccess).
Proof.
  intros Htrace Hadd.
  destruct (run opts) as [code w'|f w'] eqn:Hrun; simpl in *.
  2:{ apply run_crash in Hrun as (_ & _ & _ & ->). by destruct before. }
  apply run_pipeline in Hrun as (resolved & w1 & _ & Hrun).
  assert (forall l, Forall (fun x => ~ add_event x) l -> l = trace w' -> False) as Hnone.
  { intros l Hall ->. by apply (Forall_at _ _ _ _ _ Hall Htrace). }
  assert (forall so pre out rest,
             Forall (pre_output_event so) pre ->
             trace w' = pre ++ EvSetOutput out kSuccess :: rest ->
             exists out, EvSetOutput out kSuccess ∈ before) as Hbound.
  { intros so pre out rest Hpre Heq. rewrite Heq in Htrace.
    apply (split_after_prefix (fun x => ~ add_event x)) in Htrace
      as (mid & -> & Hmid); [|forall_trace|tauto].
    destruct mid as [|m mid]; simpl in Hmid; injection Hmid as <- _; [done|].
    exists out. apply elem_of_app. right. apply list_elem_of_here. }
  assert (forall l,
             Forall (fun x => match x with
                              | EvSetOutput _ result => result = kSuccess
                              | _ => True
                              end) l ->
             l = trace w' ->
             forall out result, EvSetOutput out result ∈ trace w' -> result = kSuccess)
    as Hsucceeded.
  { intros l Hall <- out result Hin.
    apply list_elem_of_In in Hin. by apply (proj1 (Forall_forall _ _) Hall) in Hin. }
  destruct Hrun as [pre Hpre|pre out result Hpre Hres|pre out adds e0 Hpre Hadds He0
                   |pre out adds result Hpre Hadds Hres|pre out adds Hpre Hadds].
  1,2: exfalso; eapply Hnone; [|reflexivity]; forall_trace; simpl; tauto.
  all: split; [by eapply Hbound|].
  all: eapply Hsucceeded; [|reflexivity]; forall_trace; simpl; try done.
  destruct e0; simpl in *; tauto.
Qed.

(** C1: when every position is positive, each list is in increasing
    position and no position occurs twice, the inputs handed to the engine
    follow the one sequence [merged] that holds every object file and
    every namespec once, with its kind, in increasing position:
    [PrepareInputOutput] returns, and it has attempted all of [merged] in
    that order when it returns [true]; when it returns [false] the engine
    refused a call and the attempts are an initial part of [merged]. *)
Theorem merge_in_command_line_order opts (pOutputPath : string) :
  Forall (fun x => (0 < x.2)%N) (OptInputObjectFiles opts ++ OptNameSpecList opts) ->
  StronglySorted N.lt (OptInputObjectFiles opts).*2 ->
  StronglySorted N.lt (OptNameSpecList opts).*2 ->
  NoDup ((OptInputObjectFiles opts).*2 ++ (OptNameSpecList opts).*2) ->
  exists merged : list (InputSpecifier * N),
    merged ≡ₚ tagged ObjectPath (OptInputObjectFiles opts)
               ++ tagged NameSpec (OptNameSpecList opts) /\
    StronglySorted N.lt merged.*2 /\
    forall w, exists b w' t,
      PrepareInputOutput opts pOutputPath w = Done b w' /\
      trace w' = trace w ++ t /\
      inputs_attempted t `prefix_of` merged.*1 /\
      (b = true -> inputs_attempted t = merged.*1) /\
      (b = false -> Exists refused t).
Proof.
  intros Hpos Hfsort Hlsort Hnodup.
  apply Forall_app in Hpos as [Hfpos Hlpos].
  apply list.NoDup_app in Hnodup as (_ & Hdisj & _).
  destruct (merge_loop_sorted opts
              (length (OptInputObjectFiles opts) + length (OptNameSpecList opts))
              (OptInputObjectFiles opts) (OptNameSpecList opts) 0 0)
    as (merged & Hperm & Hsorted & Hemits); try done; try lia.
  1,2: eapply Forall_impl; [|eassumption]; intros x Hx; simpl in Hx; lia.
  exists merged. split; [done|]. split; [done|]. intros w.
  unfold PrepareInputOutput, bind, call.
  destruct (Linker_setOutput pOutputPath (linker w)) as [result l].
  case_bool_decide as Hres; simpl.
  - eexists false, _, [EvSetOutput pOutputPath result; EvErrs _].
    split; [reflexivity|]. simpl. rewrite <- app_assoc.
    split; [done|]. split; [apply prefix_nil|]. split; [done|].
    intros _. apply Exists_cons_hd. simpl. congruence.
  - destruct (Hemits (merge_fuel opts)
                {| linker := l; trace := trace w ++ [EvSetOutput pOutputPath result] |})
      as (b & w' & t & Hrun & Htrace & Hprefix & Hall & Hfail);
      [unfold merge_fuel; lia|].
    exists b, w', (EvSetOutput pOutputPath result :: t). split; [done|].
    simpl in Htrace. rewrite <- app_assoc in Htrace.
    split; [done|]. split; [done|]. split; [done|].
    intros Hb. apply Exists_cons_tl. eapply Exists_impl; [|by apply Hfail].
    intros e He. destruct e; simpl in *; tauto.
Qed.

(** C10: two option records that differ at most in [-shared] give the
    same output resolution, the same configuration step, the same input
    binding and the same run: same exit code, same trace (so the same
    configuration and the same sequence of inputs), same engine state. *)
Theorem shared_noninterference (o1 o2 : Options) :
  differ_only_in_shared o1 o2 ->
  DetermineOutputFilename o1 = DetermineOutputFilename o2
  /\ ConfigLinker o1 = ConfigLinker o2
  /\ PrepareInputOutput o1 = PrepareInputOutput o2
  /\ run o1 = run o2.
Proof.
  unfold differ_only_in_shared. intros ->. by destruct o1.
Qed.

(** Along a whole run, the configuration handed to the engine has the
    [-soname] value as soName, or, when that is empty, the output path
    the resolver returned. *)
Lemma run_soName opts (config : LinkerConfig) (result : ErrorCode) :
  EvConfig config result ∈ trace (final_world (run opts)) ->
  exists out w1,
    DetermineOutputFilename opts (OptOutputFilename opts) initial_world = Done out w1
    /\ soName config = chosen_soName opts out.
Proof.
  intros Hin.
  destruct (run opts) as [code w'|f w'] eqn:Hrun; simpl in *.
  2:{ apply run_crash in Hrun as (_ & _ & _ & ->). by apply elem_of_nil in Hin. }
  apply run_pipeline in Hrun as (out & w1 & Hresolve & Hrun).
  exists out, w1. split; [done|].
  assert (Forall (fun x => match x with
                           | EvConfig c _ => soName c = chosen_soName opts out
                           | _ => True
                           end) (trace w')) as Hall.
  { destruct Hrun as [pre Hpre|pre o r Hpre Hres|pre o adds e0 Hpre Hadds He0
                     |pre o adds r Hpre Hadds Hres|pre o adds Hpre Hadds];
      forall_trace; simpl; try done.
    destruct e0; simpl in *; tauto. }
  apply list_elem_of_In in Hin.
  by apply (proj1 (Forall_forall _ _) Hall) in Hin.
Qed.
End Pipeline.

(** ** Positions only matter through their order *)

Section Renumbering.
Context `{LLVMSupport} `{LinkerAPI}.
Variable f : N -> N.
Hypothesis f_zero : f 0%N = 0%N.
Hypothesis f_increasing : forall p q : N, (p < q)%N -> (f p < f q)%N.
Implicit Types (opts : Options) (w : World) (v : cl_list).

Lemma renumber_zero (p : N) : f p = 0%N <-> p = 0%N.
Proof.
  split; [|by intros ->].
  intros Hp. destruct (decide (p = 0%N)) as [|Hne]; [done|].
  assert (f 0 < f p)%N by (apply f_increasing; lia). lia.
Qed.

Lemma renumber_ltb (p q : N) : (f p <? f q)%N = (p <? q)%N.
Proof.
  destruct (N.ltb_spec p q) as [Hlt|Hge].
  - apply N.ltb_lt. by apply f_increasing.
  - apply N.ltb_ge. destruct (decide (p = q)) as [->|Hne]; [lia|].
    assert (f q < f p)%N by (apply f_increasing; lia). lia.
Qed.

Lemma renumber_list_lookup v (i : nat) :
  renumber_list f v !! i = (fun e => (e.1, f e.2)) <$> v !! i.
Proof.
  revert i. induction v as [|e v IH]; intros [|i]; simpl; try done.
Qed.

Lemma renumber_list_length v : length (renumber_list f v) = length v.
Proof. apply length_map. Qed.

Lemma renumber_list_values v : map fst (renumber_list f v) = map fst v.
Proof. unfold renumber_list. rewrite map_map. by apply map_ext. Qed.

Lemma at_index_renumber v (i : nat) : at_index (renumber_list f v) i = at_index v i.
Proof.
  unfold at_index. rewrite renumber_list_lookup.
  by destruct (v !! i) as [[s pos]|].
Qed.

(** Reading a position in the renumbered list gives the renumbered
    position. *)
Lemma read_renumber v (i : nat) (in_range : bool) w :
  (if in_range then getPosition (renumber_list f v) i else ret 0%N) w
  = match (if in_range then getPosition v i else ret 0%N) w with
    | Done pos w' => Done (f pos) w'
    | Crash x w' => Crash x w'
    end.
Proof.
  destruct in_range; simpl; [|by rewrite f_zero].
  unfold getPosition. rewrite renumber_list_lookup.
  by destruct (v !! i) as [[s pos]|].
Qed.

Lemma merge_body_renumber opts (fileIt libIt : nat) w :
  merge_body (renumber f opts) fileIt libIt w = merge_body opts fileIt libIt w.
Proof.
  unfold merge_body. simpl. rewrite !renumber_list_length, !at_index_renumber.
  unfold bind. rewrite read_renumber.
  destruct ((if bool_decide (libIt <> length (OptNameSpecList opts))
             then getPosition (OptNameSpecList opts) libIt else ret 0%N) w)
    as [libPos w1|]; [|done].
  cbv beta iota. rewrite read_renumber.
  destruct ((if bool_decide (fileIt <> length (OptInputObjectFiles opts))
             then getPosition (OptInputObjectFiles opts) fileIt else ret 0%N) w1)
    as [filePos w2|]; [|done].
  cbv beta iota. rewrite !renumber_ltb.
  rewrite (bool_decide_ext (f filePos = 0%N) (filePos = 0%N)) by apply renumber_zero.
  rewrite (bool_decide_ext (f libPos = 0%N) (libPos = 0%N)) by apply renumber_zero.
  rewrite (bool_decide_ext (f filePos <> 0%N) (filePos <> 0%N))
    by (by rewrite renumber_zero).
  rewrite (bool_decide_ext (f libPos <> 0%N) (libPos <> 0%N))
    by (by rewrite renumber_zero).
  done.
Qed.

Lemma merge_loop_renumber opts (fuel : nat) : forall (fileIt libIt : nat) w,
  merge_loop (renumber f opts) fuel fileIt libIt w = merge_loop opts fuel fileIt libIt w.
Proof.
  induction fuel as [|fuel IH]; intros fileIt libIt w; simpl; [done|].
  unfold bind. rewrite merge_body_renumber.
  destruct (merge_body opts fileIt libIt w) as [[fileIt' libIt'| |b] w'|]; auto.
Qed.

(** A run does not change when the positions are renumbered in an
    order-preserving way that keeps them positive. *)
Lemma run_renumber opts : run (renumber f opts) = run opts.
Proof.
  assert (forall p w, DetermineOutputFilename (renumber f opts) p w
                      = DetermineOutputFilename opts p w) as Hresolve.
  { intros p w. unfold DetermineOutputFilename. simpl.
    by rewrite renumber_list_length, at_index_renumber. }
  assert (forall p w, ConfigLinker (renumber f opts) p w = ConfigLinker opts p w)
    as Hconfig.
  { intros p w. unfold ConfigLinker. simpl. by rewrite !renumber_list_values. }
  assert (forall p w, PrepareInputOutput (renumber f opts) p w
                      = PrepareInputOutput opts p w) as Hprepare.
  { intros p w. unfold PrepareInputOutput, bind.
    destruct (call _ _ w) as [result w'|]; [|done].
    destruct (bool_decide _); [done|].
    unfold merge_fuel. cbn [renumber OptInputObjectFiles OptNameSpecList].
    rewrite !renumber_list_length.
    apply merge_loop_renumber. }
  unfold run, main, bind. simpl. rewrite Hresolve.
  destruct (DetermineOutputFilename _ _ _) as [out w1|]; [|done].
  destruct (empty out); [done|]. rewrite Hconfig.
  destruct (ConfigLinker _ _ _) as [[] w2|]; simpl; [|done..].
  rewrite Hprepare. done.
Qed.
End Renumbering.

Section SharedToken.
Context `{LLVMSupport} `{LinkerAPI}.

(** Putting [-shared] (or [-shared=...]) at position [at_pos] of a command
    line moves the later tokens one position up and sets the flag; the run
    is the same. *)
Lemma shared_token_noninterference (opts : Options) (at_pos : N) (shared : bool) :
  (0 < at_pos)%N ->
  run (renumber (shift_from at_pos) (with_shared shared opts)) = run opts.
Proof.
  intros Hpos. rewrite run_renumber.
  - by destruct opts.
  - unfold shift_from. by destruct (N.ltb_spec 0 at_pos); [|lia].
  - intros p q Hlt. unfold shift_from.
    destruct (N.ltb_spec p at_pos), (N.ltb_spec q at_pos); lia.
Qed.
End SharedToken.

(** ** The theorems on the sample command lines *)

Ltac by_decide := apply (bool_decide_unpack _); vm_compute; exact I.

Section AcceptingEngine.
#[local] Existing Instance Sample.in_home.
#[local] Existing Instance Sample.accepting.

(** [a.o -lm b.o -lpthread] reaches the engine in the order it was
    written. *)
Example interleaved_run :
  returned (run Sample.interleaved) = Some EXIT_SUCCESS
  /\ inputs_attempted (trace (final_world (run Sample.interleaved)))
     = [ObjectPath "a.o"; NameSpec "m"; ObjectPath "b.o"; NameSpec "pthread"].
Proof. by vm_compute. Qed.

Lemma merge_in_command_line_order_witness :
  exists merged : list (InputSpecifier * N),
    merged ≡ₚ tagged ObjectPath (OptInputObjectFiles Sample.interleaved)
               ++ tagged NameSpec (OptNameSpecList Sample.interleaved) /\
    StronglySorted N.lt merged.*2 /\
    forall w, exists b w' t,
      PrepareInputOutput Sample.interleaved "a.out" w = Done b w' /\
      trace w' = trace w ++ t /\
      inputs_attempted t `prefix_of` merged.*1 /\
      (b = true -> inputs_attempted t = merged.*1) /\
      (b = false -> Exists refused t).
Proof.
  apply (merge_in_command_line_order Sample.interleaved "a.out"); by_decide.
Defined.

Lemma output_bound_before_inputs_witness :
  (exists out,
      EvSetOutput out kSuccess ∈ take 3 (trace (final_world (run Sample.interleaved))))
  /\ (forall out result,
        EvSetOutput out result ∈ trace (final_world (run Sample.interleaved)) ->
        result = kSuccess).
Proof.
  apply (output_bound_before_inputs Sample.interleaved
           (take 3 (trace (final_world (run Sample.interleaved))))
           (drop 4 (trace (final_world (run Sample.interleaved))))
           (EvAddObject "a.o" kSuccess)).
  - reflexivity.
  - exact I.
Defined.

Lemma explicit_output_wins_witness :
  DetermineOutputFilename Sample.explicit "out.bin" initial_world
  = Done "out.bin" initial_world.
Proof. apply explicit_output_wins. discriminate. Defined.

Lemma default_name_for_several_inputs_witness :
  DetermineOutputFilename Sample.interleaved EmptyString initial_world
  = Done "a.out" (emit (EvErrs ("Use a.out for output file!" ++ LF)) initial_world).
Proof. apply default_name_for_several_inputs. simpl. lia. Defined.

Lemma soname_of_built_configuration_witness :
  (exists config,
      trace (final_world (ConfigLinker Sample.interleaved "a.out" initial_world))
      = trace initial_world ++ [EvConfig config kSuccess] /\
      (OptSOName Sample.interleaved <> EmptyString ->
       soName config = OptSOName Sample.interleaved) /\
      (OptSOName Sample.interleaved = EmptyString -> soName config = "a.out"))
  /\ (exists config,
      trace (final_world (ConfigLinker Sample.named "a.out" initial_world))
      = trace initial_world ++ [EvConfig config kSuccess] /\
      (OptSOName Sample.named <> EmptyString -> soName config = "libfoo.so") /\
      (OptSOName Sample.named = EmptyString -> soName config = "a.out")).
Proof.
  split.
  - apply (soname_of_built_configuration Sample.interleaved "a.out" initial_world).
    reflexivity.
  - apply (soname_of_built_configuration Sample.named "a.out" initial_world).
    reflexivity.
Defined.

Lemma tie_stops_merge_witness :
  merge_loop Sample.tied 6 1 0 initial_world = Done true initial_world.
Proof.
  apply (tie_stops_merge Sample.tied 5 1 0 "b.o" "m" 2%N).
  - reflexivity.
  - reflexivity.
  - discriminate.
Defined.

(** With the tie at position 2, [b.o], [c.o], [m] and [pthread] never
    reach the engine, and the run still links and succeeds. *)
Example tied_run :
  returned (run Sample.tied) = Some EXIT_SUCCESS
  /\ inputs_attempted (trace (final_world (run Sample.tied))) = [ObjectPath "a.o"].
Proof. by vm_compute. Qed.

Lemma shared_noninterference_witness :
  DetermineOutputFilename Sample.interleaved
  = DetermineOutputFilename (with_shared true Sample.interleaved)
  /\ ConfigLinker Sample.interleaved = ConfigLinker (with_shared true Sample.interleaved)
  /\ PrepareInputOutput Sample.interleaved
     = PrepareInputOutput (with_shared true Sample.interleaved)
  /\ run Sample.interleaved = run (with_shared true Sample.interleaved).
Proof. apply shared_noninterference. reflexivity. Defined.
End AcceptingEngine.

Section RefusingEngine.
#[local] Existing Instance Sample.in_home.
#[local] Existing Instance Sample.without_c.

Lemma fail_fast_on_bind_error_witness :
  drop 6 (trace (final_world (run Sample.five)))
  = [EvErrs (bind_failure_message (@EvAddObject Sample.in_home Sample.without_c "c.o" Scripted.kOpenObjectFile))]
  /\ Forall (fun x => ~ add_event x) (drop 6 (trace (final_world (run Sample.five))))
  /\ Forall (fun x => ~ link_event x) (trace (final_world (run Sample.five)))
  /\ returned (run Sample.five) = Some EXIT_FAILURE.
Proof.
  apply (fail_fast_on_bind_error Sample.five
           (take 5 (trace (final_world (run Sample.five))))
           (drop 6 (trace (final_world (run Sample.five))))
           (@EvAddObject Sample.in_home Sample.without_c "c.o" Scripted.kOpenObjectFile)).
  - reflexivity.
  - discriminate.
Defined.

(** The third of five inputs is refused: the fourth and the fifth are not
    attempted. *)
Example five_run :
  inputs_attempted (trace (final_world (run Sample.five)))
  = [ObjectPath "a.o"; NameSpec "b"; ObjectPath "c.o"].
Proof. by vm_compute. Qed.
End RefusingEngine.

Section NoCurrentDirectory.
#[local] Existing Instance Sample.accepting.

Lemma single_input_output_witness :
  @DetermineOutputFilename Sample.in_home _ Sample.single EmptyString initial_world
  = Done "/tmp/x/a.out"
         (emit (@EvMakeAbsolute Sample.in_home _ "/tmp/x/y.o" Posix.success) initial_world)
  /\ @DetermineOutputFilename Sample.nowhere _ Sample.single_relative EmptyString
       initial_world
     = Done EmptyString
            (emit (EvErrs ("Failed to determine the absolute path of `y.o"
                           ++ "'! (detail: No such file or directory)" ++ LF))
                  (emit (@EvMakeAbsolute Sample.nowhere _ "y.o" Posix.no_such_file_or_directory)
                        initial_world)).
Proof.
  split.
  - apply (proj1 (@single_input_output Sample.in_home _ Sample.single
                    "/tmp/x/y.o" 1%N initial_world eq_refl) "/tmp/x/y.o");
      reflexivity.
  - apply (proj2 (@single_input_output Sample.nowhere _ Sample.single_relative
                    "y.o" 1%N initial_world eq_refl)
             Posix.no_such_file_or_directory "y.o").
    + reflexivity.
    + discriminate.
Defined.

Lemma no_input_no_output_is_out_of_range_witness :
  @run Sample.nowhere _ no_options = Crash OutOfRange initial_world.
Proof. apply no_input_no_output_is_out_of_range; reflexivity. Defined.
End NoCurrentDirectory.

(** ** The stages of a run *)

Section RunStages.
Context `{LLVMSupport} `{LinkerAPI}.
Implicit Types (opts : Options) (w : World) (e : Event).

(** Every run that returns went through the stages in order, stopping at
    the first one that failed. *)
Lemma run_staged opts (code : Z) w' :
  run opts = Done code w' ->
  exists out w1,
    DetermineOutputFilename opts (OptOutputFilename opts) initial_world = Done out w1
    /\ linker w1 = Linker_new
    /\ Forall resolver_event (trace w1)
    /\ staged_trace (trace w1) out code (trace w').
Proof.
  unfold run, main. unfold bind at 1.
  destruct (DetermineOutputFilename opts (OptOutputFilename opts) initial_world)
    as [out w1|] eqn:Hresolve; [|done].
  intros Hrun. exists out, w1. split; [done|]. revert Hrun.
  apply DetermineOutputFilename_trace in Hresolve as (Hlinker & t1 & Ht1 & Hpre1).
  simpl in Ht1. rewrite <- Ht1 in Hpre1. split; [done|]. split; [done|]. revert Hrun.
  destruct (empty out) eqn:Hout.
  { apply empty_true in Hout. intros [= <- <-]. by constructor. }
  apply empty_false in Hout.
  unfold bind at 1.
  destruct (ConfigLinker_trace opts out w1) as (b2 & w2 & t2 & -> & Ht2 & Hconfig).
  destruct Hconfig as [[-> ->]|(config & result & _ & [(-> & -> & ->)|(-> & Hres & ->)])];
    simpl.
  { intros [= <- <-]. rewrite Ht2. by constructor. }
  2:{ intros [= <- <-]. rewrite Ht2. by constructor. }
  unfold bind at 1.
  destruct (PrepareInputOutput_trace opts out w2) as (b3 & w3 & -> & Hprepare).
  destruct Hprepare
    as [(result & Hres & -> & Ht3)|(adds & Hadds & [[-> Ht3]|(-> & e & He & Ht3)])];
    simpl.
  { intros [= <- <-]. rewrite Ht3, Ht2, <- app_assoc. by constructor. }
  2:{ intros [= <- <-]. rewrite Ht3, Ht2, <- app_assoc. by constructor. }
  unfold bind at 1.
  destruct (LinkFiles_trace w3) as (b4 & w4 & result & -> & Hlink).
  destruct Hlink as [(-> & -> & Ht4)|(-> & Hres & Ht4)]; simpl;
    intros [= <- <-]; rewrite Ht4, Ht3, Ht2, <- !app_assoc; simpl;
    by constructor.
Qed.

Ltac trace_all :=
  repeat match goal with
    | |- Forall _ (_ ++ _) => apply Forall_app; split
    | |- Forall _ (_ :: _) => constructor
    | |- Forall _ [] => constructor
    | Hall : Forall _ ?l |- Forall _ ?l =>
        eapply Forall_impl; [|exact Hall]; intros []; simpl; tauto || congruence
    end.

(** The one event of a kind in a trace whose other events, but for the
    last two, are of another kind. *)
Lemma last_but_one {A} (P : A -> Prop) (l1 before after : list A) (x0 m x : A) :
  Forall (fun y => ~ P y) l1 -> ~ P m -> P x ->
  l1 ++ [x0; m] = before ++ x :: after ->
  x = x0 /\ after = [m].
Proof.
  intros Hl1 Hm Hx Heq.
  apply (split_after_prefix (fun y => ~ P y)) in Heq as (mid & -> & Hmid);
    [|done|tauto].
  destruct mid as [|m1 [|m2 mid]]; simpl in Hmid.
  - by injection Hmid as <- <-.
  - injection Hmid as _ <- _. done.
  - injection Hmid as _ _ Hmid. by destruct mid.
Qed.

(** X1: a refused [config], [setOutput] or [link] call is the last thing
    the run asks of the engine: only the diagnostic for that call follows
    it on the trace, and the run returns [EXIT_FAILURE]. *)
Theorem stage_refusal_is_final opts (before after : list Event) e :
  trace (final_world (run opts)) = before ++ e :: after ->
  stage_refused e ->
  after = [EvErrs (stage_failure_message e)]
  /\ returned (run opts) = Some EXIT_FAILURE.
Proof.
  intros Htrace Hrefused.
  destruct (run opts) as [code w'|f w'] eqn:Hrun; simpl in *.
  2:{ apply run_crash in Hrun as (_ & _ & _ & ->). by destruct before. }
  apply run_staged in Hrun as (out & w1 & _ & _ & Hpre & Hrun).
  assert (forall l, Forall (fun x => ~ stage_refused x) l -> l = trace w' -> False)
    as Hnone.
  { intros l Hall ->. by apply (Forall_at _ _ _ _ _ Hall Htrace). }
  destruct Hrun as [Hout|Hout|config result Hout Hres|config result Hout Hres
                   |config adds e0 Hout Hadds He0|config adds result Hout Hadds Hres
                   |config adds Hout Hadds].
  - exfalso. eapply Hnone; [|reflexivity]. trace_all.
  - exfalso. eapply Hnone; [|reflexivity]. trace_all. simpl. tauto.
  - apply (last_but_one stage_refused) in Htrace as [-> ->];
      [done|trace_all|simpl; tauto|done].
  - replace (trace w1 ++ EvConfig config kSuccess
               :: [EvSetOutput out result; EvErrs (output_failure_message out result)])
      with ((trace w1 ++ [EvConfig config kSuccess])
              ++ [EvSetOutput out result; EvErrs (output_failure_message out result)])
      in Htrace by (by rewrite <- app_assoc).
    apply (last_but_one stage_refused) in Htrace as [-> ->];
      [done|trace_all; simpl; tauto|simpl; tauto|done].
  - exfalso. eapply Hnone; [|reflexivity]. trace_all; simpl; try tauto.
    destruct e0; simpl in *; tauto.
  - replace (trace w1 ++ EvConfig config kSuccess :: EvSetOutput out kSuccess
               :: adds ++ [EvLink result; EvErrs (link_failure_message result)])
      with ((trace w1 ++ EvConfig config kSuccess :: EvSetOutput out kSuccess :: adds)
              ++ [EvLink result; EvErrs (link_failure_message result)])
      in Htrace by (by rewrite <- app_assoc).
    apply (last_but_one stage_refused) in Htrace as [-> ->];
      [done|trace_all; simpl; tauto|simpl; tauto|done].
  - exfalso. eapply Hnone; [|reflexivity]. trace_all; simpl; tauto.
Qed.

(** X2: a run returns [EXIT_SUCCESS] exactly when the link operation was
    invoked and succeeded. *)
Theorem exit_success_iff_linked opts :
  returned (run opts) = Some EXIT_SUCCESS
  <-> EvLink kSuccess ∈ trace (final_world (run opts)).
Proof.
  destruct (run opts) as [code w'|f w'] eqn:Hrun; simpl.
  2:{ apply run_crash in Hrun as (_ & _ & _ & ->). simpl. split; [done|].
      intros Hin. by apply elem_of_nil in Hin. }
  apply run_staged in Hrun as (out & w1 & _ & _ & Hpre & Hrun).
  assert (forall l, Forall (fun x => x <> EvLink kSuccess) l -> l = trace w' ->
                    EvLink kSuccess ∈ trace w' -> Some EXIT_FAILURE = Some EXIT_SUCCESS)
    as Hnone.
  { intros l Hall -> Hin. apply list_elem_of_In in Hin.
    by apply (proj1 (Forall_forall _ _) Hall) in Hin. }
  destruct Hrun as [Hout|Hout|config result Hout Hres|config result Hout Hres
                   |config adds e0 Hout Hadds He0|config adds result Hout Hadds Hres
                   |config adds Hout Hadds].
  1-6: split; [done|]; eapply Hnone; [|reflexivity]; trace_all; try done;
    try (intros [= ?]; done).
  - destruct e0; simpl in *; done.
  - split; [|done]. intros _. rewrite !elem_of_app, !elem_of_cons, !elem_of_app.
    right. right. right. right. apply list_elem_of_here.
Qed.

(** The three ways in which the resolver returns. *)
Lemma DetermineOutputFilename_cases opts (pOutputPath : string) w (out : string) w' :
  DetermineOutputFilename opts pOutputPath w = Done out w' ->
  (pOutputPath <> EmptyString /\ out = pOutputPath /\ w' = w)
  \/ (pOutputPath = EmptyString /\ 1 < length (OptInputObjectFiles opts)
      /\ out = "a.out" /\ w' = emit (EvErrs default_name_warning) w)
  \/ (pOutputPath = EmptyString /\ length (OptInputObjectFiles opts) <= 1
      /\ exists input_path pos err absolute,
          OptInputObjectFiles opts !! 0 = Some (input_path, pos)
          /\ make_absolute input_path = (err, absolute)
          /\ ((err <> errc_success /\ out = EmptyString
               /\ w' = emit (EvErrs (absolute_path_failure_message input_path err))
                            (emit (EvMakeAbsolute input_path err) w))
              \/ (err = errc_success
                  /\ out = c_str (path_append (remove_filename absolute) "a.out")
                  /\ w' = emit (EvMakeAbsolute input_path errc_success) w))).
Proof.
  unfold DetermineOutputFilename, bind, at_index, fs_make_absolute, llvm_errs, ret, crash.
  destruct (empty pOutputPath) eqn:Hempty; simpl.
  2:{ apply empty_false in Hempty. intros [= <- <-]. by left. }
  apply empty_true in Hempty.
  destruct (Nat.ltb_spec 1 (length (OptInputObjectFiles opts))) as [Hlen|Hlen].
  { intros [= <- <-]. right. by left. }
  destruct (OptInputObjectFiles opts !! 0) as [[input_path pos]|]; [|done].
  destruct (make_absolute input_path) as [err absolute] eqn:Habs. simpl.
  intros Hrun. right. right. split; [done|]. split; [lia|].
  exists input_path, pos, err, absolute. split; [done|]. split; [done|].
  revert Hrun. case_bool_decide as Herr; intros [= <- <-].
  - left. split; [congruence|done].
  - right. subst err. done.
Qed.

Lemma diagnostics_adds (adds : list Event) :
  Forall add_succeeded adds -> diagnostics adds = [].
Proof.
  induction 1 as [|e adds He _ IH]; [done|]. by destruct e.
Qed.

(** X3: a run that returns [EXIT_SUCCESS] has written nothing to the
    diagnostic stream, except the default-name warning when there is no
    [-o] and more than one input. *)
Theorem successful_run_diagnostics opts w' :
  run opts = Done EXIT_SUCCESS w' ->
  diagnostics (trace w')
  = if bool_decide (OptOutputFilename opts = EmptyString
                    /\ 1 < length (OptInputObjectFiles opts))
    then [default_name_warning] else [].
Proof.
  intros Hrun.
  apply run_staged in Hrun as (out & w1 & Hresolve & _ & _ & Hrun).
  inversion Hrun as [| | | | | |config adds Hout Hadds Hcode Htrace].
  unfold diagnostics. rewrite omap_app. simpl. rewrite omap_app. simpl.
  fold (diagnostics adds). rewrite (diagnostics_adds adds Hadds). simpl.
  rewrite app_nil_r.
  apply DetermineOutputFilename_cases in Hresolve
    as [(Hp & _ & ->)|[(Hp & Hlen & _ & ->)
       |(Hp & Hlen & path & pos & err & absolute & _ & _ &
         [(_ & -> & _)|(_ & _ & ->)])]]; simpl.
  - by rewrite bool_decide_eq_false_2 by tauto.
  - by rewrite bool_decide_eq_true_2.
  - done.
  - by rewrite bool_decide_eq_false_2 by lia.
Qed.

Lemma ends_with {A} (l tail : list A) (x : A) :
  list.last tail = Some x -> list.last (l ++ tail) = Some x.
Proof.
  intros Htail. induction l as [|a l IH]; [done|].
  simpl. destruct (l ++ tail); [done|]. exact IH.
Qed.

(** X4: a run that returns [EXIT_FAILURE] ends with a diagnostic; the
    one exception is the resolver returning the empty string although
    [make_absolute] succeeded, after which [main] returns without a word. *)
Theorem failure_is_reported opts (code : Z) w' :
  run opts = Done code w' ->
  code = EXIT_FAILURE ->
  (exists msg, list.last (trace w') = Some (EvErrs msg))
  \/ (exists input_path, trace w' = [EvMakeAbsolute input_path errc_success]).
Proof.
  intros Hrun Hcode.
  apply run_staged in Hrun as (out & w1 & Hresolve & _ & _ & Hrun).
  destruct Hrun as [Hout|Hout|config result Hout Hres|config result Hout Hres
                   |config adds e0 Hout Hadds He0|config adds result Hout Hadds Hres
                   |config adds Hout Hadds].
  - apply DetermineOutputFilename_cases in Hresolve
      as [(Hp & -> & _)|[(_ & _ & -> & _)
         |(_ & _ & path & pos & err & absolute & _ & _ &
           [(_ & _ & ->)|(_ & _ & ->)])]]; try done.
    + left. by eexists.
    + right. by eexists.
  - left. eexists. by apply ends_with.
  - left. eexists. by apply ends_with.
  - left. eexists. apply ends_with. by apply (ends_with [_]).
  - left. eexists. apply ends_with. by apply (ends_with (_ :: _ :: adds)).
  - left. eexists. apply ends_with. by apply (ends_with (_ :: _ :: adds)).
  - done.
Qed.

Lemma stages_resolver (t : list Event) : Forall resolver_event t -> stages t = [].
Proof. induction 1 as [|e t He _ IH]; [done|]. by destruct e. Qed.

Lemma stages_adds (adds : list Event) :
  Forall add_succeeded adds -> stages adds = replicate (length adds) 2.
Proof.
  induction 1 as [|e adds He _ IH]; [done|].
  destruct e; try done; simpl; by f_equal.
Qed.

(** A run of input bindings in front of calls that may follow them. *)
Lemma bindings_sorted (n : nat) (tail : list nat) :
  StronglySorted stage_follows tail ->
  Forall (stage_follows 2) tail ->
  StronglySorted stage_follows (replicate n 2 ++ tail).
Proof.
  intros Hsorted Hafter. induction n as [|n IH]; simpl; [done|].
  constructor; [done|]. apply Forall_app. split; [|done].
  apply Forall_replicate. right. done.
Qed.

Lemma bindings_after (k n : nat) (tail : list nat) :
  k < 2 ->
  Forall (stage_follows k) tail ->
  Forall (stage_follows k) (replicate n 2 ++ tail).
Proof.
  intros Hk Htail. apply Forall_app. split; [|done].
  apply Forall_replicate. left. done.
Qed.

(** X5: along any run the engine is called in the order of the stages:
    [config], then [setOutput], then the input bindings, then [link];
    [config], [setOutput] and [link] are called at most once. *)
Theorem engine_calls_in_stage_order opts :
  StronglySorted stage_follows (stages (trace (final_world (run opts)))).
Proof.
  destruct (run opts) as [code w'|f w'] eqn:Hrun; simpl.
  2:{ apply run_crash in Hrun as (_ & _ & _ & ->). constructor. }
  apply run_staged in Hrun as (out & w1 & _ & _ & Hpre & Hrun).
  destruct Hrun as [Hout|Hout|config result Hout Hres|config result Hout Hres
                   |config adds e0 Hout Hadds He0|config adds result Hout Hadds Hres
                   |config adds Hout Hadds];
    unfold stages; rewrite ?omap_app; fold (stages (trace w1));
    rewrite (stages_resolver _ Hpre); simpl;
    rewrite ?omap_app;
    try match goal with
        | Hall : Forall add_succeeded ?a |- _ =>
            fold (stages a); rewrite (stages_adds a Hall)
        end; simpl;
    try match goal with
        | Hfailed : add_failed ?e |- _ =>
            assert (stage_of e = Some 2) as -> by (by destruct e)
        end;
    repeat match goal with
      | |- StronglySorted _ (replicate _ 2 ++ _) => apply bindings_sorted
      | |- Forall _ (replicate _ 2 ++ _) => apply bindings_after; [lia|]
      | |- StronglySorted _ _ => constructor
      | |- Forall _ _ => constructor
      | |- stage_follows _ _ => unfold stage_follows; lia
      end.
Qed.

(** X6: in a run that returns [EXIT_SUCCESS] the engine was asked, after
    the resolver returned a non-empty [out], exactly this: [config] once,
    [setOutput out] once, a series of input bindings, [link] once; every
    call succeeded, and the configuration's soName is the [-soname] value
    or, by default, the same [out]. *)
Theorem successful_run_shape opts w' :
  run opts = Done EXIT_SUCCESS w' ->
  exists out w1 config adds,
    DetermineOutputFilename opts (OptOutputFilename opts) initial_world = Done out w1
    /\ out <> EmptyString
    /\ trace w' = trace w1 ++ EvConfig config kSuccess :: EvSetOutput out kSuccess
                           :: adds ++ [EvLink kSuccess]
    /\ Forall add_succeeded adds
    /\ soName config = chosen_soName opts out.
Proof.
  intros Hrun.
  pose proof Hrun as Hstaged.
  apply run_staged in Hstaged as (out & w1 & Hresolve & _ & _ & Hstaged).
  inversion Hstaged as [| | | | | |config adds Hout Hadds Hcode Htrace].
  exists out, w1, config, adds. split; [done|]. split; [done|]. split; [done|].
  split; [done|].
  destruct (run_soName opts config kSuccess) as (out' & w1' & Hresolve' & Hso).
  { rewrite Hrun. simpl. rewrite <- Htrace.
    apply elem_of_app. right. apply list_elem_of_here. }
  rewrite Hresolve in Hresolve'. by injection Hresolve' as <- <-.
Qed.
End RunStages.

(** ** The merge without assumptions on the positions *)

Section Interleaving.
Context `{LLVMSupport} `{LinkerAPI}.
Variable opts : Options.
Implicit Types (w : World) (fileIt libIt fuel : nat).

Let files := OptInputObjectFiles opts.
Let libs := OptNameSpecList opts.

Lemma lookup_position (v : cl_list) (i : nat) (s : string) (pos : N) :
  v !! i = Some (s, pos) -> pos ∈ v.*2.
Proof.
  intros Hv. apply list_elem_of_fmap. exists (s, pos). split; [done|].
  by apply list_elem_of_lookup_2 in Hv.
Qed.

(** Under [distinct_positions] the loop only stops at the end of both
    lists. *)
Lemma break_at_end fileIt libIt :
  distinct_positions opts ->
  fileIt <= length files ->
  libIt <= length libs ->
  cursor_pos files fileIt = cursor_pos libs libIt ->
  drop fileIt files = [] /\ drop libIt libs = [].
Proof.
  intros (Hfpos & Hlpos & Hdisj) Hfile Hlib Heq.
  unfold cursor_pos in Heq.
  destruct (files !! fileIt) as [[path fpos]|] eqn:Hpath,
           (libs !! libIt) as [[namespec lpos]|] eqn:Hname.
  - subst lpos. exfalso. apply (Hdisj fpos); by eapply lookup_position.
  - subst fpos. by apply (Forall_lookup_1 _ _ _ _ Hfpos) in Hpath.
  - subst lpos. by apply (Forall_lookup_1 _ _ _ _ Hlpos) in Hname.
  - apply lookup_ge_None in Hpath, Hname. by rewrite !drop_ge.
Qed.

(** From any iterators the loop returns; the object files it hands to the
    engine are the next ones of their list, in the order of the list, and
    so are the namespecs; under [distinct_positions] a [true] return means
    that both lists were handed over to their end. *)
Lemma merge_loop_interleaves fuel : forall fileIt libIt w,
  fileIt <= length files ->
  libIt <= length libs ->
  (length files - fileIt) + (length libs - libIt) < fuel ->
  exists b w' t,
    merge_loop opts fuel fileIt libIt w = Done b w' /\
    trace w' = trace w ++ t /\
    objects_attempted t `prefix_of` (drop fileIt files).*1 /\
    namespecs_attempted t `prefix_of` (drop libIt libs).*1 /\
    (b = true -> distinct_positions opts ->
     objects_attempted t = (drop fileIt files).*1
     /\ namespecs_attempted t = (drop libIt libs).*1).
Proof.
  induction fuel as [|fuel IH]; intros fileIt libIt w Hfile Hlib Hfuel; [lia|].
  simpl. unfold bind at 1.
  destruct (cursor_cases (cursor_pos files fileIt) (cursor_pos libs libIt))
    as [[Hpos Hcmp]|[[Hpos Hcmp]|Heq]].
  - destruct (cursor_pos_lookup files fileIt Hpos) as [path Hpath].
    rewrite (merge_body_object _ _ _ _ _ _ Hlib Hpath Hpos Hcmp).
    rewrite (drop_S _ _ _ Hpath). apply lookup_lt_Some in Hpath.
    unfold bind, call. destruct (Linker_addObject path (linker w)) as [result l].
    case_bool_decide as Hres; simpl.
    + eexists false, _, [EvAddObject path result; EvErrs _].
      split; [reflexivity|]. simpl. rewrite <- app_assoc.
      split; [done|]. split; [apply prefix_cons, prefix_nil|].
      split; [apply prefix_nil|done].
    + destruct (IH (S fileIt) libIt
                  {| linker := l; trace := trace w ++ [EvAddObject path result] |})
        as (b & w' & t & Hrun & Htrace & Hobjects & Hnames & Hall); [lia..|].
      exists b, w', (EvAddObject path result :: t). split; [done|].
      simpl in Htrace. rewrite <- app_assoc in Htrace.
      split; [done|]. split; [by apply prefix_cons|]. split; [done|].
      intros Hb Hdistinct. destruct (Hall Hb Hdistinct) as [Ho Hn].
      split; [|done]. simpl. by f_equal.
  - destruct (cursor_pos_lookup libs libIt Hpos) as [namespec Hname].
    rewrite (merge_body_namespec _ _ _ _ _ _ Hfile Hname Hpos Hcmp).
    rewrite (drop_S _ _ _ Hname). apply lookup_lt_Some in Hname.
    unfold bind, call. destruct (Linker_addNameSpec namespec (linker w)) as [result l].
    case_bool_decide as Hres; simpl.
    + eexists false, _, [EvAddNameSpec namespec result; EvErrs _].
      split; [reflexivity|]. simpl. rewrite <- app_assoc.
      split; [done|]. split; [apply prefix_nil|].
      split; [apply prefix_cons, prefix_nil|done].
    + destruct (IH fileIt (S libIt)
                  {| linker := l; trace := trace w ++ [EvAddNameSpec namespec result] |})
        as (b & w' & t & Hrun & Htrace & Hobjects & Hnames & Hall); [lia..|].
      exists b, w', (EvAddNameSpec namespec result :: t). split; [done|].
      simpl in Htrace. rewrite <- app_assoc in Htrace.
      split; [done|]. split; [done|]. split; [by apply prefix_cons|].
      intros Hb Hdistinct. destruct (Hall Hb Hdistinct) as [Ho Hn].
      split; [done|]. simpl. by f_equal.
  - rewrite (merge_body_break _ _ _ _ Hfile Hlib Heq).
    exists true, w, []. split; [done|]. split; [by rewrite app_nil_r|].
    split; [apply prefix_nil|]. split; [apply prefix_nil|].
    intros _ Hdistinct.
    destruct (break_at_end fileIt libIt Hdistinct Hfile Hlib Heq) as [-> ->]. done.
Qed.

Lemma PrepareInputOutput_interleaves (pOutputPath : string) w :
  exists b w' t,
    PrepareInputOutput opts pOutputPath w = Done b w' /\
    trace w' = trace w ++ t /\
    objects_attempted t `prefix_of` files.*1 /\
    namespecs_attempted t `prefix_of` libs.*1 /\
    (b = true -> distinct_positions opts ->
     objects_attempted t = files.*1 /\ namespecs_attempted t = libs.*1).
Proof.
  unfold PrepareInputOutput, bind, call.
  destruct (Linker_setOutput pOutputPath (linker w)) as [result l].
  case_bool_decide as Hres; simpl.
  - eexists false, _, [EvSetOutput pOutputPath result; EvErrs _].
    split; [reflexivity|]. simpl. rewrite <- app_assoc.
    split; [done|]. split; [apply prefix_nil|]. split; [apply prefix_nil|done].
  - destruct (merge_loop_interleaves (merge_fuel opts) 0 0
                {| linker := l; trace := trace w ++ [EvSetOutput pOutputPath result] |})
      as (b & w' & t & Hrun & Htrace & Hobjects & Hnames & Hall);
      [lia..|unfold merge_fuel; fold files libs; lia|].
    exists b, w', (EvSetOutput pOutputPath result :: t). split; [done|].
    simpl in Htrace. rewrite <- app_assoc in Htrace. by rewrite !drop_0 in *.
Qed.
End Interleaving.

Section InputBinding.
Context `{LLVMSupport} `{LinkerAPI}.
Implicit Types (opts : Options) (w : World).

(** X7: whatever the positions are, [PrepareInputOutput] returns, and it
    never reorders a list: the object files handed to the engine are an
    initial part of the positional arguments in their order, and the
    namespecs an initial part of the [-l] values in theirs. *)
Theorem each_list_keeps_its_order opts (pOutputPath : string) w :
  exists b w' t,
    PrepareInputOutput opts pOutputPath w = Done b w' /\
    trace w' = trace w ++ t /\
    objects_attempted t `prefix_of` (OptInputObjectFiles opts).*1 /\
    namespecs_attempted t `prefix_of` (OptNameSpecList opts).*1.
Proof.
  destruct (PrepareInputOutput_interleaves opts pOutputPath w)
    as (b & w' & t & Hrun & Htrace & Hobjects & Hnames & _).
  by exists b, w', t.
Qed.

(** X8: when no position is zero and none occurs in both lists, a [true]
    return of [PrepareInputOutput] means that every object file and every
    namespec was handed to the engine, also when the positions inside a
    list are not increasing. *)
Theorem every_input_is_bound opts (pOutputPath : string) w w' :
  distinct_positions opts ->
  PrepareInputOutput opts pOutputPath w = Done true w' ->
  exists t,
    trace w' = trace w ++ t /\
    objects_attempted t = (OptInputObjectFiles opts).*1 /\
    namespecs_attempted t = (OptNameSpecList opts).*1.
Proof.
  intros Hdistinct Hprepare.
  destruct (PrepareInputOutput_interleaves opts pOutputPath w)
    as (b & w1 & t & Hrun & Htrace & _ & _ & Hall).
  rewrite Hprepare in Hrun. injection Hrun as <- <-.
  exists t. split; [done|]. by apply Hall.
Qed.

Lemma objects_resolver (t : list Event) :
  Forall resolver_event t -> objects_attempted t = [] /\ namespecs_attempted t = [].
Proof.
  induction 1 as [|e t He _ [IHo IHn]]; [done|]. by destruct e.
Qed.

(** X9: the link operation only runs on a complete input set: when no
    position is zero and none occurs in both lists, a run that returns
    [EXIT_SUCCESS] has handed every object file and every namespec to the
    engine. *)
Theorem link_requires_all_inputs opts w' :
  distinct_positions opts ->
  run opts = Done EXIT_SUCCESS w' ->
  objects_attempted (trace w') = (OptInputObjectFiles opts).*1
  /\ namespecs_attempted (trace w') = (OptNameSpecList opts).*1.
Proof.
  intros Hdistinct. unfold run, main. unfold bind at 1.
  destruct (DetermineOutputFilename opts (OptOutputFilename opts) initial_world)
    as [out w1|] eqn:Hresolve; [|done].
  apply DetermineOutputFilename_trace in Hresolve as (_ & t1 & Ht1 & Hpre1).
  simpl in Ht1. destruct (empty out); [done|].
  unfold bind at 1.
  destruct (ConfigLinker_trace opts out w1) as (b2 & w2 & t2 & -> & Ht2 & Hconfig).
  destruct Hconfig as [[-> _]|(config & result & _ & [(-> & _ & ->)|(-> & _ & _)])];
    simpl; [done| |done].
  unfold bind at 1.
  destruct (PrepareInputOutput_interleaves opts out w2)
    as (b3 & w3 & t3 & -> & Ht3 & _ & _ & Hall).
  destruct b3; simpl; [|done].
  unfold bind at 1.
  destruct (LinkFiles_trace w3) as (b4 & w4 & linked & -> & Hlink).
  destruct Hlink as [(-> & _ & Ht4)|(-> & _ & _)]; simpl; [|done].
  intros [= <-]. rewrite Ht4, Ht3, Ht2, Ht1.
  destruct (Hall eq_refl Hdistinct) as [Hobjects Hnames].
  destruct (objects_resolver t1 Hpre1) as [Ho1 Hn1].
  unfold objects_attempted, namespecs_attempted in *.
  rewrite !omap_app, Hobjects, Hnames, Ho1, Hn1. simpl. by rewrite !app_nil_r.
Qed.
End InputBinding.

(** ** The configuration handed to the engine *)

Section ConfigurationFields.
Context `{LLVMSupport} `{LinkerAPI}.
Implicit Types (opts : Options) (w : World) (config : LinkerConfig).

Lemma fold_addWrap symbols config :
  sysRoot (fold_left addWrap symbols config) = sysRoot config
  /\ dynamicLinkerPath (fold_left addWrap symbols config) = dynamicLinkerPath config
  /\ wrapSymbols (fold_left addWrap symbols config) = wrapSymbols config ++ symbols
  /\ searchDirs (fold_left addWrap symbols config) = searchDirs config.
Proof.
  revert config. induction symbols as [|x symbols IH]; intros config; simpl.
  - by rewrite app_nil_r.
  - destruct (IH (addWrap config x)) as (-> & -> & -> & ->). simpl.
    by rewrite <- app_assoc.
Qed.

Lemma fold_addSearchDir dirs config :
  sysRoot (fold_left addSearchDir dirs config) = sysRoot config
  /\ dynamicLinkerPath (fold_left addSearchDir dirs config) = dynamicLinkerPath config
  /\ wrapSymbols (fold_left addSearchDir dirs config) = wrapSymbols config
  /\ searchDirs (fold_left addSearchDir dirs config) = searchDirs config ++ dirs.
Proof.
  revert config. induction dirs as [|x dirs IH]; intros config; simpl.
  - by rewrite app_nil_r.
  - destruct (IH (addSearchDir config x)) as (-> & -> & -> & ->). simpl.
    by rewrite <- app_assoc.
Qed.

(** With memory for a configuration, [ConfigLinker] hands one to the
    engine; these are its fields, in terms of the freshly constructed
    [fresh]. *)
Lemma ConfigLinker_fields opts (pOutputFilename : string) w (fresh : LinkerConfig) :
  LinkerConfig_new (OptTargetTriple opts) = Some fresh ->
  exists config result b w' tail,
    ConfigLinker opts pOutputFilename w = Done b w' /\
    trace w' = trace w ++ EvConfig config result :: tail /\
    sysRoot config
    = (if empty (OptSysRoot opts) then sysRoot fresh else Some (OptSysRoot opts)) /\
    dynamicLinkerPath config
    = (if empty (OptDyld opts) then dynamicLinkerPath fresh else Some (OptDyld opts)) /\
    wrapSymbols config = wrapSymbols fresh ++ map fst (OptWrapList opts) /\
    searchDirs config = searchDirs fresh ++ map fst (OptSearchDirList opts).
Proof.
  intros Hnew. unfold ConfigLinker. rewrite Hnew.
  set (config := fold_left addSearchDir _ _).
  assert (sysRoot config
          = (if empty (OptSysRoot opts) then sysRoot fresh else Some (OptSysRoot opts))
          /\ dynamicLinkerPath config
             = (if empty (OptDyld opts) then dynamicLinkerPath fresh
                else Some (OptDyld opts))
          /\ wrapSymbols config = wrapSymbols fresh ++ map fst (OptWrapList opts)
          /\ searchDirs config = searchDirs fresh ++ map fst (OptSearchDirList opts))
    as Hfields.
  { unfold config.
    match goal with
    | |- context [fold_left addSearchDir ?dirs (fold_left addWrap ?symbols ?c)] =>
        destruct (fold_addSearchDir dirs (fold_left addWrap symbols c))
          as (-> & -> & -> & ->);
        destruct (fold_addWrap symbols c) as (-> & -> & -> & ->)
    end.
    destruct (empty (OptSOName opts)), (empty (OptSysRoot opts)), (empty (OptDyld opts));
      done. }
  unfold bind, call.
  destruct (Linker_config config (linker w)) as [result l].
  exists config, result.
  case_bool_decide; simpl.
  - eexists false, _, [EvErrs _]. split; [reflexivity|]. simpl.
    by rewrite <- app_assoc.
  - eexists true, _, []. split; [reflexivity|]. by simpl.
Qed.

(** X10: the sysroot and the dynamic linker of the configuration handed to
    the engine are the [-sysroot] and [-dynamic-linker] values when these
    are not empty; an empty value leaves what the constructor put there. *)
Theorem optional_settings_only_if_given opts (pOutputFilename : string) w
    (fresh : LinkerConfig) :
  LinkerConfig_new (OptTargetTriple opts) = Some fresh ->
  exists config result b w' tail,
    ConfigLinker opts pOutputFilename w = Done b w' /\
    trace w' = trace w ++ EvConfig config result :: tail /\
    (OptSysRoot opts <> EmptyString -> sysRoot config = Some (OptSysRoot opts)) /\
    (OptSysRoot opts = EmptyString -> sysRoot config = sysRoot fresh) /\
    (OptDyld opts <> EmptyString -> dynamicLinkerPath config = Some (OptDyld opts)) /\
    (OptDyld opts = EmptyString -> dynamicLinkerPath config = dynamicLinkerPath fresh).
Proof.
  intros Hnew.
  destruct (ConfigLinker_fields opts pOutputFilename w fresh Hnew)
    as (config & result & b & w' & tail & Hrun & Htrace & Hsysroot & Hdyld & _).
  exists config, result, b, w', tail. split; [done|]. split; [done|].
  split; [intros Hgiven; apply empty_false in Hgiven; by rewrite Hgiven in Hsysroot|].
  split; [intros Hgiven; apply empty_true in Hgiven; by rewrite Hgiven in Hsysroot|].
  split; [intros Hgiven; apply empty_false in Hgiven; by rewrite Hgiven in Hdyld|].
  intros Hgiven; apply empty_true in Hgiven; by rewrite Hgiven in Hdyld.
Qed.

(** X11: the wrapped symbols and the search directories of the
    configuration handed to the engine are the [-wrap] and [-L] values in
    the order of the command line, duplicates included, after whatever the
    constructor put there. *)
Theorem wraps_and_search_dirs_in_order opts (pOutputFilename : string) w
    (fresh : LinkerConfig) :
  LinkerConfig_new (OptTargetTriple opts) = Some fresh ->
  exists config result b w' tail,
    ConfigLinker opts pOutputFilename w = Done b w' /\
    trace w' = trace w ++ EvConfig config result :: tail /\
    wrapSymbols config = wrapSymbols fresh ++ map fst (OptWrapList opts) /\
    searchDirs config = searchDirs fresh ++ map fst (OptSearchDirList opts).
Proof.
  intros Hnew.
  destruct (ConfigLinker_fields opts pOutputFilename w fresh Hnew)
    as (config & result & b & w' & tail & Hrun & Htrace & _ & _ & Hwrap & Hdirs).
  by exists config, result, b, w', tail.
Qed.
End ConfigurationFields.

(** ** Whole runs *)

Section WholeRuns.
Context `{LLVMSupport} `{LinkerAPI}.
Implicit Types (opts : Options) (w : World) (e : Event).

Ltac trace_all :=
  repeat match goal with
    | |- Forall _ (_ ++ _) => apply Forall_app; split
    | |- Forall _ (_ :: _) => constructor
    | |- Forall _ [] => constructor
    | Hall : Forall _ ?l |- Forall _ ?l =>
        eapply Forall_impl; [|exact Hall]; intros []; simpl; tauto || congruence
    end.

(** X12: a run depends on the positions only through their order: any
    renumbering that is strictly increasing and keeps zero gives the same
    run, with the same calls in the same order. *)
Theorem positions_matter_by_order_only opts (f : N -> N) :
  f 0%N = 0%N ->
  (forall p q : N, (p < q)%N -> (f p < f q)%N) ->
  run (renumber f opts) = run opts.
Proof. intros Hzero Hincreasing. by apply run_renumber. Qed.

(** X13: with an [-o] value or at least one input, a run returns, with
    [EXIT_SUCCESS] or [EXIT_FAILURE], whatever the engine does and whatever
    the positions are: the merge loop ends and never reads outside its
    lists. *)
Theorem run_returns opts :
  OptOutputFilename opts <> EmptyString \/ OptInputObjectFiles opts <> [] ->
  exists code w',
    run opts = Done code w' /\ (code = EXIT_SUCCESS \/ code = EXIT_FAILURE).
Proof.
  intros Hgiven.
  destruct (run opts) as [code w'|f w'] eqn:Hrun.
  - exists code, w'. split; [done|].
    apply run_staged in Hrun as (out & w1 & _ & _ & _ & Hrun).
    destruct Hrun; auto.
  - apply run_crash in Hrun as (_ & Hout & Hin & _). tauto.
Qed.

(** X14: when the path of the only input cannot be made absolute, the run
    reports it and returns [EXIT_FAILURE] without having asked anything of
    the engine. *)
Theorem resolution_failure_stops_before_engine opts (input_path : string) (pos : N)
    (err : error_code) (absolute : string) :
  OptOutputFilename opts = EmptyString ->
  OptInputObjectFiles opts = [(input_path, pos)] ->
  make_absolute input_path = (err, absolute) ->
  err <> errc_success ->
  run opts
  = Done EXIT_FAILURE
         {| linker := Linker_new;
            trace := [EvMakeAbsolute input_path err;
                      EvErrs (absolute_path_failure_message input_path err)] |}.
Proof.
  intros Hout Hin Habs Herr.
  assert (DetermineOutputFilename opts EmptyString initial_world
          = Done EmptyString
                 {| linker := Linker_new;
                    trace := [EvMakeAbsolute input_path err;
                              EvErrs (absolute_path_failure_message input_path err)] |})
    as Hresolve.
  { unfold DetermineOutputFilename, bind, at_index, fs_make_absolute.
    rewrite Hin. simpl. rewrite Habs. simpl.
    rewrite bool_decide_eq_true_2 by congruence. reflexivity. }
  unfold run, main. rewrite Hout. unfold bind at 1. by rewrite Hresolve.
Qed.

(** X15: when no configuration can be allocated, the run returns
    [EXIT_FAILURE] without having asked anything of the engine. *)
Theorem no_memory_stops_before_engine opts (code : Z) w' :
  LinkerConfig_new (OptTargetTriple opts) = None ->
  run opts = Done code w' ->
  code = EXIT_FAILURE /\ linker w' = Linker_new /\ stages (trace w') = [].
Proof.
  intros Hnew. unfold run, main. unfold bind at 1.
  destruct (DetermineOutputFilename opts (OptOutputFilename opts) initial_world)
    as [out w1|] eqn:Hresolve; [|done].
  apply DetermineOutputFilename_trace in Hresolve as (Hlinker & t1 & Ht1 & Hpre1).
  simpl in Ht1, Hlinker. subst t1.
  destruct (empty out).
  { intros [= <- <-]. split; [done|]. split; [done|]. by apply stages_resolver. }
  unfold bind at 1, ConfigLinker. rewrite Hnew. simpl.
  intros [= <- <-]. split; [done|]. split; [done|]. simpl.
  unfold stages. rewrite omap_app. fold (stages (trace w1)).
  by rewrite stages_resolver.
Qed.

(** X16: the path given to [setOutput] is the one the resolver returned,
    and it is not empty. *)
Theorem output_bound_is_resolved_output opts (path : string) (result : ErrorCode) :
  EvSetOutput path result ∈ trace (final_world (run opts)) ->
  path <> EmptyString
  /\ exists w1,
      DetermineOutputFilename opts (OptOutputFilename opts) initial_world = Done path w1.
Proof.
  intros Hin.
  destruct (run opts) as [code w'|f w'] eqn:Hrun; simpl in *.
  2:{ apply run_crash in Hrun as (_ & _ & _ & ->). by apply elem_of_nil in Hin. }
  apply run_staged in Hrun as (out & w1 & Hresolve & _ & Hpre & Hrun).
  assert (Forall (fun x => match x with
                           | EvSetOutput p _ => p = out /\ out <> EmptyString
                           | _ => True
                           end) (trace w')) as Hall.
  { destruct Hrun as [Hout|Hout|config r Hout Hres|config r Hout Hres
                     |config adds e0 Hout Hadds He0|config adds r Hout Hadds Hres
                     |config adds Hout Hadds];
      trace_all; simpl; try done.
    destruct e0; simpl in *; tauto. }
  apply list_elem_of_In in Hin.
  apply (proj1 (Forall_forall _ _) Hall) in Hin as [-> Hout].
  split; [done|]. by exists w1.
Qed.

(** X17: the file system is consulted only to infer the output name from
    a single input: a [make_absolute] query in a run means that there is no
    [-o] value and exactly one input, and it is about that input. *)
Theorem file_system_only_for_single_input opts (path : string) (err : error_code) :
  EvMakeAbsolute path err ∈ trace (final_world (run opts)) ->
  OptOutputFilename opts = EmptyString
  /\ length (OptInputObjectFiles opts) = 1
  /\ exists pos, OptInputObjectFiles opts !! 0 = Some (path, pos).
Proof.
  intros Hin.
  destruct (run opts) as [code w'|f w'] eqn:Hrun; simpl in *.
  2:{ apply run_crash in Hrun as (_ & _ & _ & ->). by apply elem_of_nil in Hin. }
  apply run_staged in Hrun as (out & w1 & Hresolve & _ & _ & Hrun).
  assert (EvMakeAbsolute path err ∈ trace w1) as Hin1.
  { assert (forall rest,
               Forall (fun x => match x with EvMakeAbsolute _ _ => False | _ => True end)
                      rest ->
               trace w' = trace w1 ++ rest -> EvMakeAbsolute path err ∈ trace w1)
      as Hrest.
    { intros rest Hall Heq. rewrite Heq in Hin.
      apply elem_of_app in Hin as [Hin|Hin]; [done|].
      apply list_elem_of_In in Hin.
      by apply (proj1 (Forall_forall _ _) Hall) in Hin. }
    destruct Hrun as [Hout|Hout|config r Hout Hres|config r Hout Hres
                     |config adds e0 Hout Hadds He0|config adds r Hout Hadds Hres
                     |config adds Hout Hadds];
      try done; (eapply Hrest; [|reflexivity]); trace_all; simpl; try done.
    destruct e0; simpl in *; tauto. }
  apply DetermineOutputFilename_cases in Hresolve
    as [(_ & _ & ->)|[(_ & _ & _ & ->)
       |(Hp & Hlen & input_path & pos & err' & absolute & Hfirst & _ &
         [(_ & _ & ->)|(_ & _ & ->)])]]; simpl in Hin1.
  - by apply elem_of_nil in Hin1.
  - apply list_elem_of_singleton in Hin1. done.
  - apply elem_of_cons in Hin1 as [[= -> ->]|Hin1].
    + apply lookup_lt_Some in Hfirst as Hlt. split; [done|]. split; [lia|]. by exists pos.
    + apply list_elem_of_singleton in Hin1. done.
  - apply list_elem_of_singleton in Hin1 as [= -> ->].
    apply lookup_lt_Some in Hfirst as Hlt. split; [done|]. split; [lia|]. by exists pos.
Qed.
End WholeRuns.

(** ** The further theorems on sample command lines *)

Section SoundEngine.
#[local] Existing Instance Sample.in_home.
#[local] Existing Instance Scenario.sound.

Lemma successful_run_diagnostics_witness :
  diagnostics (trace (final_world (run Sample.interleaved)))
  = if bool_decide (OptOutputFilename Sample.interleaved = EmptyString
                    /\ 1 < length (OptInputObjectFiles Sample.interleaved))
    then [default_name_warning] else [].
Proof.
  apply (successful_run_diagnostics Sample.interleaved
           (final_world (run Sample.interleaved))).
  reflexivity.
Defined.

Lemma successful_run_shape_witness :
  exists out w1 config adds,
    DetermineOutputFilename Sample.interleaved (OptOutputFilename Sample.interleaved)
      initial_world = Done out w1
    /\ out <> EmptyString
    /\ trace (final_world (run Sample.interleaved))
       = trace w1 ++ EvConfig config kSuccess :: EvSetOutput out kSuccess
                  :: adds ++ [EvLink kSuccess]
    /\ Forall add_succeeded adds
    /\ soName config = chosen_soName Sample.interleaved out.
Proof.
  apply (successful_run_shape Sample.interleaved (final_world (run Sample.interleaved))).
  reflexivity.
Defined.

Lemma every_input_is_bound_witness :
  exists t,
    trace (final_world (PrepareInputOutput Scenario.unsorted "a.out" initial_world))
    = trace initial_world ++ t /\
    objects_attempted t = ["a.o"; "b.o"] /\
    namespecs_attempted t = ["m"].
Proof.
  apply (every_input_is_bound Scenario.unsorted "a.out" initial_world
           (final_world (PrepareInputOutput Scenario.unsorted "a.out" initial_world))).
  - split; [by_decide|]. split; [by_decide|].
    apply (proj1 (list.Forall_forall _ _)). by_decide.
  - reflexivity.
Defined.

(** With positions 5 and 1 for [a.o] and [b.o] and 3 for [-lm], the engine
    receives [m], [a.o], [b.o]. *)
Example unsorted_run :
  inputs_attempted (trace (final_world (run Scenario.unsorted)))
  = [NameSpec "m"; ObjectPath "a.o"; ObjectPath "b.o"].
Proof. by vm_compute. Qed.

Lemma link_requires_all_inputs_witness :
  objects_attempted (trace (final_world (run Scenario.unsorted))) = ["a.o"; "b.o"]
  /\ namespecs_attempted (trace (final_world (run Scenario.unsorted))) = ["m"].
Proof.
  apply (link_requires_all_inputs Scenario.unsorted
           (final_world (run Scenario.unsorted))).
  - split; [by_decide|]. split; [by_decide|].
    apply (proj1 (list.Forall_forall _ _)). by_decide.
  - reflexivity.
Defined.

Lemma optional_settings_only_if_given_witness :
  exists config result b w' tail,
    ConfigLinker Scenario.configured "out" initial_world = Done b w' /\
    trace w' = trace initial_world ++ EvConfig config result :: tail /\
    (OptSysRoot Scenario.configured <> EmptyString -> sysRoot config = Some "/sdk") /\
    (OptSysRoot Scenario.configured = EmptyString
     -> sysRoot config = sysRoot Scripted.blank) /\
    (OptDyld Scenario.configured <> EmptyString
     -> dynamicLinkerPath config = Some (OptDyld Scenario.configured)) /\
    (OptDyld Scenario.configured = EmptyString -> dynamicLinkerPath config = None).
Proof.
  apply (optional_settings_only_if_given Scenario.configured "out" initial_world
           Scripted.blank).
  reflexivity.
Defined.

Lemma wraps_and_search_dirs_in_order_witness :
  exists config result b w' tail,
    ConfigLinker Scenario.configured "out" initial_world = Done b w' /\
    trace w' = trace initial_world ++ EvConfig config result :: tail /\
    wrapSymbols config = [] ++ ["malloc"; "free"] /\
    searchDirs config = [] ++ ["/lib"; "/usr/lib"].
Proof.
  apply (wraps_and_search_dirs_in_order Scenario.configured "out" initial_world
           Scripted.blank).
  reflexivity.
Defined.

Lemma positions_matter_by_order_only_witness :
  run (renumber (shift_from 2) Sample.interleaved) = run Sample.interleaved.
Proof.
  apply (positions_matter_by_order_only Sample.interleaved (shift_from 2)).
  - reflexivity.
  - intros p q Hlt. unfold shift_from.
    destruct (N.ltb_spec p 2), (N.ltb_spec q 2); lia.
Defined.

Lemma run_returns_witness :
  exists code w',
    run Sample.tied = Done code w' /\ (code = EXIT_SUCCESS \/ code = EXIT_FAILURE).
Proof. apply (run_returns Sample.tied). right. discriminate. Defined.

Lemma output_bound_is_resolved_output_witness :
  "out" <> EmptyString
  /\ exists w1,
      DetermineOutputFilename Scenario.configured (OptOutputFilename Scenario.configured)
        initial_world = Done "out" w1.
Proof.
  apply (output_bound_is_resolved_output Scenario.configured "out" kSuccess).
  apply (list_elem_of_lookup_2 _ 1). reflexivity.
Defined.

Lemma file_system_only_for_single_input_witness :
  OptOutputFilename Sample.single = EmptyString
  /\ length (OptInputObjectFiles Sample.single) = 1
  /\ exists pos, OptInputObjectFiles Sample.single !! 0 = Some ("/tmp/x/y.o", pos).
Proof.
  apply (@file_system_only_for_single_input Sample.in_home _ Sample.single
           "/tmp/x/y.o" Posix.success).
  apply (list_elem_of_lookup_2 _ 0). reflexivity.
Defined.
End SoundEngine.

Section FailingStages.
#[local] Existing Instance Sample.in_home.

Lemma stage_refusal_is_final_witness :
  drop 8 (trace (final_world (@run _ Scenario.unresolved Sample.interleaved)))
  = [EvErrs (stage_failure_message
               (@EvLink Sample.in_home Scenario.unresolved Staged.UnresolvedSymbols))]
  /\ returned (@run _ Scenario.unresolved Sample.interleaved) = Some EXIT_FAILURE.
Proof.
  apply (@stage_refusal_is_final _ Scenario.unresolved Sample.interleaved
           (take 7 (trace (final_world (@run _ Scenario.unresolved Sample.interleaved))))
           (drop 8 (trace (final_world (@run _ Scenario.unresolved Sample.interleaved))))
           (@EvLink Sample.in_home Scenario.unresolved Staged.UnresolvedSymbols)).
  - reflexivity.
  - discriminate.
Defined.

(** A refused configuration, and an output that cannot be opened, end the
    run in the same way. *)
Example refused_stages :
  stages (trace (final_world (@run _ Scenario.no_backend Sample.interleaved))) = [0]
  /\ stages (trace (final_world (@run _ Scenario.read_only Sample.interleaved))) = [0; 1]
  /\ returned (@run _ Scenario.no_backend Sample.interleaved) = Some EXIT_FAILURE
  /\ returned (@run _ Scenario.read_only Sample.interleaved) = Some EXIT_FAILURE.
Proof. by vm_compute. Qed.

Lemma failure_is_reported_witness :
  (exists msg,
      list.last (trace (final_world (@run _ Sample.without_c Sample.five)))
      = Some (EvErrs msg))
  \/ (exists input_path,
        trace (final_world (@run _ Sample.without_c Sample.five))
        = [EvMakeAbsolute input_path errc_success]).
Proof.
  apply (@failure_is_reported _ Sample.without_c Sample.five EXIT_FAILURE
           (final_world (@run _ Sample.without_c Sample.five)));
    reflexivity.
Defined.

Lemma resolution_failure_stops_before_engine_witness :
  @run Sample.nowhere Scenario.sound Sample.single_relative
  = Done EXIT_FAILURE
         {| linker := Linker_new;
            trace := [@EvMakeAbsolute Sample.nowhere Scenario.sound "y.o"
                        Posix.no_such_file_or_directory;
                      @EvErrs Sample.nowhere Scenario.sound
                        (@absolute_path_failure_message Sample.nowhere "y.o"
                           Posix.no_such_file_or_directory)] |}.
Proof.
  apply (@resolution_failure_stops_before_engine Sample.nowhere Scenario.sound
           Sample.single_relative "y.o" 1%N Posix.no_such_file_or_directory "y.o").
  - reflexivity.
  - reflexivity.
  - reflexivity.
  - discriminate.
Defined.

Lemma no_memory_stops_before_engine_witness :
  EXIT_FAILURE = EXIT_FAILURE
  /\ linker (final_world (@run _ Scenario.out_of_memory Sample.interleaved))
     = @Linker_new Scenario.out_of_memory
  /\ stages (trace (final_world (@run _ Scenario.out_of_memory Sample.interleaved))) = [].
Proof.
  apply (@no_memory_stops_before_engine _ Scenario.out_of_memory Sample.interleaved
           EXIT_FAILURE
           (final_world (@run _ Scenario.out_of_memory Sample.interleaved)));
    reflexivity.
Defined.
End FailingStages.
